(** * spacetime: the store and the per-frame simulation loops

    A shallow embedding of [src/lib/types.ts], [src/lib/store.ts] and the two
    [useFrame] callbacks of [src/components/space-time-fabric.tsx] (physics and
    fabric deformation), together with the older deformation loops kept in the
    repository (the Gaussian [SpaceTimeGrid] and the canvas
    [SpaceTimeGrid.updateGrid]).

    JavaScript numbers are modelled by the real numbers [R]: the arithmetic of
    the source is read without rounding.  Where the special values of IEEE
    arithmetic matter (a division by a zero distance, and what follows from
    the NaN it can leave in a velocity and a position) the formulas are
    modelled over [Module JS] below: the reals extended with the two
    infinities and NaN. *)

From Stdlib Require Import Reals Lra Lia List String Bool Arith Permutation Sorted.
Import ListNotations.
Open Scope R_scope.

(** ** Numbers *)

(** The comparisons [x > y] and [x < y] of the source, as booleans. *)
Definition Rgtb (x y : R) : bool := if Rgt_dec x y then true else false.
Definition Rltb (x y : R) : bool := if Rlt_dec x y then true else false.

Arguments Rgtb : simpl never.
Arguments Rltb : simpl never.

(** ** Data model ([src/lib/types.ts]) *)

Inductive ObjectType : Type :=
| Planet
| BlackHole.

Definition vec3 : Type := (R * R * R)%type.

Record SpaceTimeObject : Type := mkObject {
  id : string;
  type : ObjectType;
  position : vec3;
  velocity : vec3;
  mass : R;
  radius : R
}.

(** [obj.position = p] and [obj.velocity = v]: assignment to one field. *)
Definition set_position (obj : SpaceTimeObject) (p : vec3) : SpaceTimeObject :=
  mkObject (id obj) (type obj) p (velocity obj) (mass obj) (radius obj).

Definition set_velocity (obj : SpaceTimeObject) (v : vec3) : SpaceTimeObject :=
  mkObject (id obj) (type obj) (position obj) v (mass obj) (radius obj).

(** The fields of an object that the frame never assigns. *)
Definition statics (o : SpaceTimeObject) : string * ObjectType * R * R :=
  (id o, type o, mass o, radius o).

(** ** The store ([src/lib/store.ts])

    The operations only look at the [id] of the elements of the list, so they
    are written over any element type with an [id] projection: the store
    itself holds objects, the physics frame below holds references to them. *)

Section Store.
Context {A : Type} (idOf : A -> string).

(** [objects.map((obj) => (obj.id === object.id ? object : obj))] *)
Definition updateObject (object : A) (objects : list A) : list A :=
  map (fun obj => if String.eqb (idOf obj) (idOf object) then object else obj)
      objects.

(** [objects.filter((obj) => obj.id !== id)] *)
Definition removeObject (i : string) (objects : list A) : list A :=
  filter (fun obj => negb (String.eqb (idOf obj) i)) objects.

(** [[...state.objects, object]] *)
Definition addObject (object : A) (objects : list A) : list A :=
  objects ++ [object].

End Store.

(** ** The physics frame ([space-time-fabric.tsx], second [useFrame]) *)

Definition gridSize : R := 20.

(** [Math.sqrt(dx * dx + dy * dy + dz * dz)] with [d = other.position - p];
    [p] is the position of [obj] read at the start of its iteration. *)
Definition separation (p : vec3) (other : SpaceTimeObject) : R :=
  let '(px, py, pz) := p in
  let '(ox, oy, oz) := position other in
  let dx := ox - px in
  let dy := oy - py in
  let dz := oz - pz in
  sqrt (dx * dx + dy * dy + dz * dz).

(** [forceMagnitude] and the vector [(fx, fy, fz)]. *)
Definition gravity_force (p : vec3) (other : SpaceTimeObject) : vec3 :=
  let '(px, py, pz) := p in
  let '(ox, oy, oz) := position other in
  let dx := ox - px in
  let dy := oy - py in
  let dz := oz - pz in
  let distance := sqrt (dx * dx + dy * dy + dz * dz) in
  let forceMagnitude := (mass other * 0.1) / (distance * distance) in
  ((dx / distance) * forceMagnitude,
   (dy / distance) * forceMagnitude,
   (dz / distance) * forceMagnitude).

(** The planet-planet branch: the new velocity of [obj] from its current
    velocity and the current velocity of [other]. *)
Definition elastic (obj other : SpaceTimeObject) : vec3 :=
  let m1 := mass obj in
  let m2 := mass other in
  let totalMass := m1 + m2 in
  let '(v1x, v1y, v1z) := velocity obj in
  let '(v2x, v2y, v2z) := velocity other in
  ((v1x * (m1 - m2) + 2 * m2 * v2x) / totalMass,
   (v1y * (m1 - m2) + 2 * m2 * v2y) / totalMass,
   (v1z * (m1 - m2) + 2 * m2 * v2z) / totalMass).

(** [[vx + fx, vy + fy, vz + fz]] *)
Definition vadd (v f : vec3) : vec3 :=
  let '(vx, vy, vz) := v in
  let '(fx, fy, fz) := f in
  (vx + fx, vy + fy, vz + fz).

(** How one pass through the body of the inner loop ends. *)
Inductive flow : Type :=
| Continue
| Break.

(** The body of the inner loop for one [other] with [i <> j].  [p] and [v]
    are the position and velocity of [obj] destructured before the loop;
    [obj] is the object as mutated so far. *)
Definition interact (p v : vec3) (obj other : SpaceTimeObject)
    (toRemove : list string) : SpaceTimeObject * list string * flow :=
  let distance := separation p other in
  if Rgtb distance 10 then (obj, toRemove, Continue)
  else
    let obj := set_velocity obj (vadd v (gravity_force p other)) in
    if Rltb distance (radius obj + radius other) then
      match type other with
      | BlackHole => (obj, toRemove ++ [id obj], Break)
      | Planet =>
          match type obj with
          | Planet => (set_velocity obj (elastic obj other), toRemove, Continue)
          | BlackHole => (obj, toRemove, Continue)
          end
      end
    else (obj, toRemove, Continue).

(** The inner loop from index [j] on; [others] is [updatedObjects] from that
    index.  The element at index [i] is [obj] itself and is skipped, so the
    mutations of [obj] are not read back through the array.  The result also
    tells how the loop was left: [Break] by the [break] statement, [Continue]
    by running off the end of the array. *)
Fixpoint gravity_loop (i : nat) (p v : vec3) (j : nat)
    (others : list SpaceTimeObject) (obj : SpaceTimeObject)
    (toRemove : list string) : SpaceTimeObject * list string * flow :=
  match others with
  | [] => (obj, toRemove, Continue)
  | other :: rest =>
      if Nat.eqb i j then gravity_loop i p v (S j) rest obj toRemove
      else
        match interact p v obj other toRemove with
        | (obj', toRemove', Break) => (obj', toRemove', Break)
        | (obj', toRemove', Continue) =>
            gravity_loop i p v (S j) rest obj' toRemove'
        end
  end.

(** [Math.abs(px) > gridSize || Math.abs(pz) > gridSize || py < -10 || py > 10] *)
Definition out_of_bounds (p : vec3) : bool :=
  let '(px, py, pz) := p in
  Rgtb (Rabs px) gridSize || Rgtb (Rabs pz) gridSize
  || Rltb py (-10) || Rgtb py 10.

(** Assignment to the element at an index of an array (the index is always
    within the array here). *)
Fixpoint assign {A : Type} (i : nat) (x : A) (l : list A) : list A :=
  match l, i with
  | [], _ => []
  | _ :: t, O => x :: t
  | h :: t, S k => h :: assign k x t
  end.

(** The objects are shared between [updatedObjects] (a copy of the array, not
    of its elements) and the array held by the store, and the loop mutates
    them in place.  [updatedObjects] therefore doubles as the heap: the object
    with reference [r] is its [r]-th element, and the array of the store is a
    list of references. *)
Record frame_state : Type := mkState {
  updatedObjects : list SpaceTimeObject;
  storeObjects : list nat;
  objectsToRemove : list string
}.

(** The [id] of the object behind a reference. *)
Definition ref_id (heap : list SpaceTimeObject) (r : nat) : string :=
  match nth_error heap r with
  | Some o => id o
  | None => EmptyString
  end.

(** The objects behind a list of references. *)
Definition resolve (heap : list SpaceTimeObject) (refs : list nat)
    : list SpaceTimeObject :=
  flat_map (fun r => match nth_error heap r with
                     | Some o => [o]
                     | None => []
                     end) refs.

(** [[px + vx * 0.01, py + vy * 0.01, pz + vz * 0.01]] *)
Definition advance (p v : vec3) : vec3 :=
  let '(vx, vy, vz) := v in
  let '(px, py, pz) := p in
  (px + vx * 0.01, py + vy * 0.01, pz + vz * 0.01).

(** One iteration of the outer loop, for the index [i]: the position is
    assigned first, from the velocity read at the start; then the inner loop
    runs; then the bounds are tested on the position read at the start; then
    [updateObject(obj)] is called on the store. *)
Definition frame_body (s : frame_state) (i : nat) : frame_state :=
  match nth_error (updatedObjects s) i with
  | None => s
  | Some obj =>
      let v := velocity obj in
      let p := position obj in
      let obj := set_position obj (advance p v) in
      let '(obj, toRemove, _) :=
        gravity_loop i p v 0 (updatedObjects s) obj (objectsToRemove s) in
      let toRemove :=
        if out_of_bounds p then toRemove ++ [id obj] else toRemove in
      let heap := assign i obj (updatedObjects s) in
      mkState heap (updateObject (ref_id heap) i (storeObjects s)) toRemove
  end.

(** The state at the start of the callback: [updatedObjects = [...objects]],
    the store holds the same objects in the same order, nothing is marked. *)
Definition frame_init (objects : list SpaceTimeObject) : frame_state :=
  mkState objects (seq 0 (List.length objects)) [].

(** The state just before iteration [i] of the outer loop. *)
Definition frame_before (i : nat) (objects : list SpaceTimeObject)
    : frame_state :=
  fold_left frame_body (seq 0 i) (frame_init objects).

(** Whether the inner loop of iteration [i] is left by [break]. *)
Definition absorbed (i : nat) (objects : list SpaceTimeObject) : bool :=
  let heap := updatedObjects (frame_before i objects) in
  match nth_error heap i with
  | None => false
  | Some obj =>
      let v := velocity obj in
      let p := position obj in
      match gravity_loop i p v 0 heap (set_position obj (advance p v)) [] with
      | (_, _, Break) => true
      | (_, _, Continue) => false
      end
  end.

(** The state after the outer loop. *)
Definition physicsLoop (objects : list SpaceTimeObject) : frame_state :=
  frame_before (List.length objects) objects.

(** [objectsToRemove.forEach((id) => removeObject(id))] *)
Definition removeAll (heap : list SpaceTimeObject) (ids : list string)
    (refs : list nat) : list nat :=
  fold_left (fun st i => removeObject (ref_id heap) i st) ids refs.

(** The whole callback: from the objects of the store before the frame to
    the objects of the store after it. *)
Definition physicsFrame (objects : list SpaceTimeObject)
    : list SpaceTimeObject :=
  let s := physicsLoop objects in
  resolve (updatedObjects s)
          (removeAll (updatedObjects s) (objectsToRemove s) (storeObjects s)).

(** ** The fabric deformation ([space-time-fabric.tsx], first [useFrame])

    The position attribute is a flat array of [x, y, z] triples; it is read
    here as a list of triples. *)

(** [positions[i + 1] = 0] for every vertex. *)
Definition resetPositions (positions : list vec3) : list vec3 :=
  map (fun '(x, _, z) => (x, 0, z)) positions.

(** The body of [for (const obj of objects)] at the vertex [(x, y, z)]:
    the new [y]. *)
Definition deform (x z : R) (y : R) (obj : SpaceTimeObject) : R :=
  let '(objX, objY, objZ) := position obj in
  let dx := x - objX in
  let dz := z - objZ in
  let distance := sqrt (dx * dx + dz * dz) in
  if Rgtb distance (mass obj * 4) then y
  else
    let deformation := (mass obj * 2.0) / (distance + 0.2) in
    y - deformation.

(** The deformation loop: every object in turn acts on the height of every
    vertex. *)
Definition applyDeformation (objects : list SpaceTimeObject)
    (positions : list vec3) : list vec3 :=
  map (fun '(x, y, z) => (x, fold_left (deform x z) objects y, z)) positions.

(** The whole callback on one position array: reset, then deform. *)
Definition deformationFrame (objects : list SpaceTimeObject)
    (positions : list vec3) : list vec3 :=
  applyDeformation objects (resetPositions positions).

(** The horizontal distance of a vertex from an object, as [deform] computes
    it. *)
Definition horizontalDistance (x z : R) (obj : SpaceTimeObject) : R :=
  let '(objX, objY, objZ) := position obj in
  sqrt ((x - objX) * (x - objX) + (z - objZ) * (z - objZ)).

(** ** The Gaussian deformation (the older [SpaceTimeGrid] component)

    [objects.forEach] inside the [useFrame] of [SpaceTimeGrid]: the new
    [newY] at the grid point [(x, z)].  [obj.mass || 1] is 1 when the mass is
    zero. *)
Definition distort (x z : R) (newY : R) (obj : SpaceTimeObject) : R :=
  let '(objX, objY, objZ) := position obj in
  let objMass := if Req_dec_T (mass obj) 0 then 1 else mass obj in
  let distortionFactor :=
    match type obj with BlackHole => 10 | Planet => 1 end in
  let dx := x - objX in
  let dz := z - objZ in
  let horizontalDistance := sqrt (dx * dx + dz * dz) in
  let falloff := exp (- horizontalDistance * horizontalDistance * 0.3) in
  let distortion := - objMass * distortionFactor * falloff in
  newY + distortion.

(** The height of a grid point with [originalY = 0]. *)
Definition gaussianHeight (objects : list SpaceTimeObject) (x z : R) : R :=
  fold_left (distort x z) objects 0.



(** [getPlaneY] of the older [CelestialObject]: the height of the vertex of
    the plane nearest to [(x, z)].  [planeMesh] is [None] for [null];
    [closestDist] is [None] while it is [Infinity]. *)
Definition getPlaneY_step (x z : R) (closest : option R * R) (vertex : vec3)
    : option R * R :=
  let '(closestDist, closestY) := closest in
  let '(vx, vy, vz) := vertex in
  let dx := vx - x in
  let dz := vz - z in
  let distSq := dx * dx + dz * dz in
  if match closestDist with
     | None => true
     | Some c => Rltb distSq c
     end
  then (Some distSq, vy)
  else (closestDist, closestY).

Definition getPlaneY (planeMesh : option (list vec3)) (x z : R) : R :=
  match planeMesh with
  | None => 0
  | Some arr => snd (fold_left (getPlaneY_step x z) arr (None, 0))
  end.

(** The squared horizontal distance [getPlaneY] compares. *)
Definition distSq (x z : R) (vertex : vec3) : R :=
  let '(vx, vy, vz) := vertex in
  (vx - x) * (vx - x) + (vz - z) * (vz - z).

(** ** Numbers with the special values of JavaScript

    The real numbers extended with [Infinity], [-Infinity] and [NaN], and the
    operations the gravity and deformation formulas use, with the IEEE rules
    for the special values.  Finite results are exact; a zero is taken to be
    [+0] (the divisors of the source are square roots and their products,
    which are never [-0]). *)

Module JS.

Inductive num : Type :=
| Fin (r : R)
| PInf
| NInf
| NaN.

Definition finite (a : num) : bool :=
  match a with Fin _ => true | _ => false end.

(** The sign rule for a product or quotient that is infinite. *)
Definition signed_inf (positive : bool) : num :=
  if positive then PInf else NInf.

Definition add (a b : num) : num :=
  match a, b with
  | NaN, _ | _, NaN => NaN
  | Fin x, Fin y => Fin (x + y)
  | PInf, NInf | NInf, PInf => NaN
  | PInf, _ | _, PInf => PInf
  | NInf, _ | _, NInf => NInf
  end.

Definition opp (a : num) : num :=
  match a with
  | Fin x => Fin (- x)
  | PInf => NInf
  | NInf => PInf
  | NaN => NaN
  end.

Definition sub (a b : num) : num := add a (opp b).

(** [Infinity * x]: [NaN] for [x = 0], otherwise infinite with the sign of [x]. *)
Definition inf_times (positive : bool) (x : R) : num :=
  if Rltb 0 x then signed_inf positive
  else if Rltb x 0 then signed_inf (negb positive)
  else NaN.

Definition mul (a b : num) : num :=
  match a, b with
  | NaN, _ | _, NaN => NaN
  | Fin x, Fin y => Fin (x * y)
  | PInf, Fin x | Fin x, PInf => inf_times true x
  | NInf, Fin x | Fin x, NInf => inf_times false x
  | PInf, PInf | NInf, NInf => PInf
  | PInf, NInf | NInf, PInf => NInf
  end.

Definition div (a b : num) : num :=
  match a, b with
  | NaN, _ | _, NaN => NaN
  | Fin x, Fin y =>
      if Req_dec_T y 0 then inf_times true x else Fin (x / y)
  | Fin _, PInf | Fin _, NInf => Fin 0
  | PInf, Fin y => signed_inf (negb (Rltb y 0))
  | NInf, Fin y => signed_inf (Rltb y 0)
  | _, _ => NaN
  end.

Definition sqrt (a : num) : num :=
  match a with
  | Fin x => if Rltb x 0 then NaN else Fin (R_sqrt.sqrt x)
  | PInf => PInf
  | NInf | NaN => NaN
  end.

(** [a > b] *)
Definition gt (a b : num) : bool :=
  match a, b with
  | NaN, _ | _, NaN => false
  | Fin x, Fin y => Rgtb x y
  | PInf, PInf | NInf, _ | Fin _, PInf => false
  | PInf, _ | Fin _, NInf => true
  end.

Definition vec : Type := (num * num * num)%type.

(** Lines 136-149 of the physics frame: [None] when the pair is skipped by
    [if (distance > 10) continue], otherwise the vector [(fx, fy, fz)] that
    is added to the velocity. *)
Definition gravity_force (p : vec) (otherPosition : vec) (otherMass : num)
    : option vec :=
  let '(px, py, pz) := p in
  let '(ox, oy, oz) := otherPosition in
  let dx := sub ox px in
  let dy := sub oy py in
  let dz := sub oz pz in
  let distance := sqrt (add (add (mul dx dx) (mul dy dy)) (mul dz dz)) in
  if gt distance (Fin 10) then None
  else
    let forceMagnitude := div (mul otherMass (Fin 0.1)) (mul distance distance) in
    Some (mul (div dx distance) forceMagnitude,
          mul (div dy distance) forceMagnitude,
          mul (div dz distance) forceMagnitude).

(** Lines 77-87 of the deformation frame: [None] when the object is skipped
    by [if (distance > obj.mass * 4) continue], otherwise [deformation]. *)
Definition deformation (x z : num) (objX objZ : num) (objMass : num)
    : option num :=
  let dx := sub x objX in
  let dz := sub z objZ in
  let distance := sqrt (add (mul dx dx) (mul dz dz)) in
  if gt distance (mul objMass (Fin 4)) then None
  else Some (div (mul objMass (Fin 2.0)) (add distance (Fin 0.2))).

Definition finite_vec (v : vec) : bool :=
  let '(a, b, c) := v in finite a && finite b && finite c.

Definition of_vec3 (v : vec3) : vec :=
  let '(a, b, c) := v in (Fin a, Fin b, Fin c).

(** [Math.abs(a)] *)
Definition abs (a : num) : num :=
  match a with
  | Fin x => Fin (Rabs x)
  | PInf | NInf => PInf
  | NaN => NaN
  end.

(** [a < b] *)
Definition lt (a b : num) : bool := gt b a.

(** Line 129 of the physics frame, the new position. *)
Definition advance (p v : vec) : vec :=
  let '(vx, vy, vz) := v in
  let '(px, py, pz) := p in
  (add px (mul vx (Fin 0.01)), add py (mul vy (Fin 0.01)),
   add pz (mul vz (Fin 0.01))).

(** Line 182 of the physics frame, the bounds test. *)
Definition out_of_bounds (p : vec) : bool :=
  let '(px, py, pz) := p in
  gt (abs px) (Fin gridSize) || gt (abs pz) (Fin gridSize)
  || lt py (Fin (-10)) || gt py (Fin 10).

(** [a <= b] *)
Definition le (a b : num) : bool :=
  match a, b with
  | NaN, _ | _, NaN => false
  | Fin x, Fin y => negb (Rgtb x y)
  | NInf, _ | _, PInf => true
  | PInf, _ | Fin _, NInf => false
  end.

(** [Math.min(a, b)] *)
Definition min (a b : num) : num :=
  match a, b with
  | NaN, _ | _, NaN => NaN
  | NInf, _ | _, NInf => NInf
  | PInf, c | c, PInf => c
  | Fin x, Fin y => Fin (Rmin x y)
  end.

(** An object as the deformation frame reads it: [obj.position] and
    [obj.mass]. *)
Definition body : Type := (vec * num)%type.

Definition of_object (o : SpaceTimeObject) : body :=
  (of_vec3 (position o), Fin (mass o)).

(** Lines 77-87 of the deformation frame, the body of
    [for (const obj of objects)] at a vertex with coordinates [x], [z] and
    height [y]: the new height, [positions[i + 1] -= deformation] unless the
    object is skipped. *)
Definition deform (x z : num) (y : num) (obj : body) : num :=
  let '((objX, objY, objZ), objMass) := obj in
  match deformation x z objX objZ objMass with
  | None => y
  | Some d => sub y d
  end.

(** Lines 62-89: the height of the vertex at [(x, z)] after the frame, reset
    to 0 and then changed by every object in turn. *)
Definition height (objects : list body) (x z : num) : num :=
  fold_left (deform x z) objects (Fin 0).

End JS.

(** ** The canvas deformation ([SpaceTimeGrid.updateGrid])

    The displacement of the point with base [(baseX, baseY)]; an object is
    given by the position of its body and its mass, all finite.  The distance
    is zero for a point directly under an object, so the division, the
    [Math.min] and the sum are those of [Module JS]:
    [(obj.mass * 1000) / 0] is [Infinity] for a positive mass, and
    [Math.min(Infinity, 50)] is 50. *)
Definition updateGrid_displacement (objects : list (R * R * R))
    (baseX baseY : R) : JS.num :=
  fold_left (fun totalDisplacement '(objX, objY, objMass) =>
               let dx := baseX - objX in
               let dy := baseY - objY in
               let distance := sqrt (dx * dx + dy * dy) in
               let force :=
                 JS.div (JS.Fin (objMass * 1000))
                        (JS.Fin (distance * distance)) in
               JS.add totalDisplacement (JS.min force (JS.Fin 50)))
            objects (JS.Fin 0).

(** ** Absorption in the canvas version ([CelestialObject.applyGravitationalForce])

    An object of the canvas version, with the position of its body.  The
    value the method returns tells the caller to remove [otherObject] from
    the list; the force it hands to the physics engine otherwise is not
    modelled. *)
Record CanvasObject : Type := mkCanvasObject {
  canvas_type : string;
  canvas_mass : R;
  canvas_radius : R;
  canvas_x : R;
  canvas_y : R
}.

Definition applyGravitationalForce_removed (this otherObject : CanvasObject)
    : bool :=
  let dx := canvas_x otherObject - canvas_x this in
  let dy := canvas_y otherObject - canvas_y this in
  let distance := sqrt (dx * dx + dy * dy) in
  if Rltb distance (canvas_radius this + canvas_radius otherObject) then
    if String.eqb (canvas_type this) "blackhole" then true else false
  else false.

(** ** The canvas version: grid, objects and the interaction pass *)

(** [const gridSize = 40] of the canvas version. *)
Definition canvas_gridSize : R := 40.

(** A point of the canvas grid. *)
Record GridNode : Type := mkGridNode {
  node_x : R;
  node_y : JS.num;
  baseX : R;
  baseY : R;
  displacement : JS.num
}.

(** [initGrid], for [cols] and [rows] as computed from the canvas: the two
    nested loops run from 0 to [cols] and from 0 to [rows] inclusive. *)
Definition initGrid (cols rows : nat) : list GridNode :=
  flat_map (fun i =>
              map (fun j =>
                     mkGridNode (INR i * canvas_gridSize)
                                (JS.Fin (INR j * canvas_gridSize))
                                (INR i * canvas_gridSize) (INR j * canvas_gridSize)
                                (JS.Fin 0))
                  (seq 0 (S rows)))
           (seq 0 (S cols)).

(** [this.points[i * (rows + 1) + j]], the lookup of [draw]. *)
Definition draw_point (rows : nat) (points : list GridNode) (i j : nat)
    : option GridNode :=
  nth_error points (i * (rows + 1) + j).

(** [updateGrid(objects)]. *)
Definition updateGrid (objects : list CanvasObject) (points : list GridNode)
    : list GridNode :=
  map (fun point =>
         let totalDisplacement :=
           updateGrid_displacement
             (map (fun obj => (canvas_x obj, canvas_y obj, canvas_mass obj))
                  objects)
             (baseX point) (baseY point) in
         mkGridNode (baseX point)
                    (JS.add (JS.Fin (baseY point)) totalDisplacement)
                    (baseX point) (baseY point) totalDisplacement)
      points.

(** [getRadius()] *)
Definition getRadius (type : string) : R :=
  if String.eqb type "small-planet" then 15
  else if String.eqb type "medium-planet" then 25
  else if String.eqb type "large-planet" then 35
  else if String.eqb type "blackhole" then 40
  else 20.

(** The constructor of [CelestialObject], without the engine body. *)
Definition newCanvasObject (x y : R) (type : string) (mass : R) : CanvasObject :=
  mkCanvasObject type mass (getRadius type) x y.

(** [Math.atan2(dy, dx)] on real numbers. *)
Definition atan2 (dy dx : R) : R :=
  if Rltb 0 dx then atan (dy / dx)
  else if Rltb dx 0 then
    if Rltb dy 0 then atan (dy / dx) - PI else atan (dy / dx) + PI
  else if Rltb 0 dy then PI / 2
  else if Rltb dy 0 then - (PI / 2)
  else 0.

(** What a call of [applyGravitationalForce] does: it removes the body of
    [otherObject] and returns [true], or returns [false] at once because the
    two touch, or applies a force to the body of [otherObject]. *)
Inductive canvas_outcome : Type :=
| Removed
| Blocked
| Pushed (fx fy : R).

Definition applyGravitationalForce (this otherObject : CanvasObject)
    : canvas_outcome :=
  let dx := canvas_x otherObject - canvas_x this in
  let dy := canvas_y otherObject - canvas_y this in
  let distance := sqrt (dx * dx + dy * dy) in
  if Rltb distance (canvas_radius this + canvas_radius otherObject) then
    if String.eqb (canvas_type this) "blackhole" then Removed else Blocked
  else
    let force := (canvas_mass this * canvas_mass otherObject)
                 / (distance * distance) in
    let angle := atan2 dy dx in
    Pushed (cos angle * force * 0.0001) (sin angle * force * 0.0001).

(** [objects.splice(i, 1)] *)
Fixpoint splice1 {A : Type} (i : nat) (l : list A) : list A :=
  match l, i with
  | [], _ => []
  | _ :: t, O => t
  | h :: t, S k => h :: splice1 k t
  end.

(** The inner loop of [animate], [for (let i = objects.length - 1; i >= 0;
    i--)], with [n] indices still to visit: the next one is [n - 1]. *)
Fixpoint interact_down (obj : CanvasObject) (index : nat) (n : nat)
    (objects : list CanvasObject) : list CanvasObject :=
  match n with
  | O => objects
  | S i =>
      interact_down obj index i
        (if Nat.eqb i index then objects
         else match nth_error objects i with
              | Some other =>
                  if applyGravitationalForce_removed obj other
                  then splice1 i objects
                  else objects
              | None => objects
              end)
  end.

(** [objects.forEach((obj, index) => ...)]: the number of turns is the length
    the array had at the start, and an index the array no longer has is
    passed over. *)
Fixpoint animate_from (index : nat) (turns : nat) (objects : list CanvasObject)
    : list CanvasObject :=
  match turns with
  | O => objects
  | S turns' =>
      animate_from (S index) turns'
        (match nth_error objects index with
         | Some obj => interact_down obj index (List.length objects) objects
         | None => objects
         end)
  end.

(** The list [objects] after the interaction pass of one [animate]. *)
Definition animate_interactions (objects : list CanvasObject)
    : list CanvasObject :=
  animate_from 0 (List.length objects) objects.

(** What the inner loop for [obj] at [index] leaves of a list whose first
    element has index [i]: [obj] itself and whatever it does not remove. *)
Fixpoint keep_from (obj : CanvasObject) (index : nat) (i : nat)
    (l : list CanvasObject) : list CanvasObject :=
  match l with
  | [] => []
  | o :: t =>
      if Nat.eqb i index || negb (applyGravitationalForce_removed obj o)
      then o :: keep_from obj index (S i) t
      else keep_from obj index (S i) t
  end.

(** One turn of [forEach], as in [animate_from]. *)
Definition animate_turn (index : nat) (objects : list CanvasObject)
    : list CanvasObject :=
  match nth_error objects index with
  | Some obj => interact_down obj index (List.length objects) objects
  | None => objects
  end.


(** ** The page of the older component ([Home]) *)

Inductive CelestialType : Type :=
| planet
| blackHole.

Record CelestialObject : Type := mkCelestialObject {
  celestial_id : nat;
  celestial_type : CelestialType;
  celestial_position : vec3;
  celestial_mass : R;
  celestial_radius : R;
  celestial_velocity : vec3
}.

Inductive SizeClass : Type :=
| small
| medium
| large.

(** [sizeProperties]: radius and mass. *)
Definition sizeProperties (size : SizeClass) : R * R :=
  match size with
  | small => (0.3, 0.5)
  | medium => (0.8, 1.5)
  | large => (1.5, 3)
  end.

(** [addObject(type)]; [selectedSize] and [planeY] are read from the state of
    the page, [now] is [Date.now()]. *)
Definition Home_addObject (type : CelestialType) (selectedSize : SizeClass)
    (planeY : R) (now : nat) (objects : list CelestialObject)
    : list CelestialObject :=
  let '(radius, sizeMass) := sizeProperties selectedSize in
  let mass := match type with blackHole => sizeMass * 5 | planet => sizeMass end in
  objects ++ [mkCelestialObject now type (0, planeY, 0) mass radius (0, 0, 0)].

(** [removeObject(id)] of the page. *)
Definition Home_removeObject (i : nat) (objects : list CelestialObject)
    : list CelestialObject :=
  filter (fun obj => negb (Nat.eqb (celestial_id obj) i)) objects.

(** [updateObjectPosition(id, newPosition)] *)
Definition updateObjectPosition (i : nat) (newPosition : vec3)
    (objects : list CelestialObject) : list CelestialObject :=
  map (fun obj =>
         if Nat.eqb (celestial_id obj) i
         then mkCelestialObject (celestial_id obj) (celestial_type obj)
                newPosition (celestial_mass obj) (celestial_radius obj)
                (celestial_velocity obj)
         else obj)
      objects.

(** A planet of mass 1 at the origin, for the deformation. *)
Definition unit_body : SpaceTimeObject :=
  mkObject "a" Planet (0, 0, 0) (0, 0, 0) 1 0.3.

(** ** Quantities the specification talks about *)

(** The total momentum of a list of objects: the sum of [mass * velocity]. *)
Definition total_momentum (objects : list SpaceTimeObject) : vec3 :=
  fold_left (fun acc o =>
               let '(ax, ay, az) := acc in
               let '(vx, vy, vz) := velocity o in
               (ax + mass o * vx, ay + mass o * vy, az + mass o * vz))
            objects (0, 0, 0).

(** The pull the specification accumulates for an object at [p]: the sum of
    [gravity_force p other] over the others within the cutoff. *)
Definition accumulated_pull (p : vec3) (others : list SpaceTimeObject) : vec3 :=
  fold_left (fun acc other =>
               if Rgtb (separation p other) 10 then acc
               else vadd acc (gravity_force p other))
            others (0, 0, 0).

(** Twice the kinetic energy of a list of objects: the sum of
    [mass * |velocity|^2]. *)
Definition kinetic_energy2 (objects : list SpaceTimeObject) : R :=
  fold_left (fun acc o =>
               let '(vx, vy, vz) := velocity o in
               acc + mass o * (vx * vx + vy * vy + vz * vz))
            objects 0.

(** The horizontal distance of a position from the origin. *)
Definition distance_from_origin (p : vec3) : R :=
  let '(px, py, pz) := p in sqrt (px * px + pz * pz).

(** ** Scenarios *)

(** Two planets of mass 1 and radius 1, one unit apart, approaching each
    other head-on with velocities +1 and -1, and what the loop makes of
    them. *)
Definition planet_a : SpaceTimeObject :=
  mkObject "a" Planet (-0.5, 0, 0) (1, 0, 0) 1 1.
Definition planet_b : SpaceTimeObject :=
  mkObject "b" Planet (0.5, 0, 0) (-1, 0, 0) 1 1.
Definition two_planets : list SpaceTimeObject := [planet_a; planet_b].

Definition moved (o : SpaceTimeObject) : SpaceTimeObject :=
  set_position o (advance (position o) (velocity o)).
Definition pulled (o other : SpaceTimeObject) : vec3 :=
  vadd (velocity o) (gravity_force (position o) other).

Definition planet_a' : SpaceTimeObject :=
  set_velocity (moved planet_a)
    (elastic (set_velocity (moved planet_a) (pulled planet_a planet_b)) planet_b).
Definition planet_b' : SpaceTimeObject :=
  set_velocity (moved planet_b)
    (elastic (set_velocity (moved planet_b) (pulled planet_b planet_a')) planet_a').

(** Three small planets at rest, 3, 4 and 5 units apart. *)
Definition body_a : SpaceTimeObject :=
  mkObject "a" Planet (0, 0, 0) (0, 0, 0) 1 0.3.
Definition body_b : SpaceTimeObject :=
  mkObject "b" Planet (3, 0, 0) (0, 0, 0) 1 0.3.
Definition body_c : SpaceTimeObject :=
  mkObject "c" Planet (0, 4, 0) (0, 0, 0) 1 0.3.
Definition three_bodies : list SpaceTimeObject := [body_a; body_b; body_c].

Definition body_a' : SpaceTimeObject :=
  set_velocity (set_velocity (moved body_a) (pulled body_a body_b))
               (pulled body_a body_c).
Definition body_b' : SpaceTimeObject :=
  set_velocity (set_velocity (moved body_b) (pulled body_b body_a'))
               (pulled body_b body_c).
Definition body_c' : SpaceTimeObject :=
  set_velocity (set_velocity (moved body_c) (pulled body_c body_a'))
               (pulled body_c body_b').

(** A planet and a black hole of radius 6 each, 11 units apart, at rest. *)
Definition big_planet : SpaceTimeObject :=
  mkObject "planet" Planet (0, 0, 0) (0, 0, 0) 1 6.
Definition big_hole : SpaceTimeObject :=
  mkObject "hole" BlackHole (11, 0, 0) (0, 0, 0) 3 6.
Definition far_pair : list SpaceTimeObject := [big_planet; big_hole].

(** A medium planet (mass 1.5, radius 0.8) and a medium black hole (mass 7.5,
    radius 2), 2 units apart, at rest. *)
Definition medium_planet : SpaceTimeObject :=
  mkObject "planet" Planet (0, 0, 0) (0, 0, 0) 1.5 0.8.
Definition medium_hole : SpaceTimeObject :=
  mkObject "hole" BlackHole (2, 0, 0) (0, 0, 0) 7.5 2.
Definition close_pair : list SpaceTimeObject := [medium_planet; medium_hole].

(** Two black holes of radius 2, one unit apart, at rest. *)
Definition hole_a : SpaceTimeObject :=
  mkObject "a" BlackHole (0, 0, 0) (0, 0, 0) 3 2.
Definition hole_b : SpaceTimeObject :=
  mkObject "b" BlackHole (1, 0, 0) (0, 0, 0) 3 2.
Definition two_holes : list SpaceTimeObject := [hole_a; hole_b].

(** One planet at rest, 15 units from the origin on the x axis. *)
Definition lone_body : SpaceTimeObject :=
  mkObject "a" Planet (15, 0, 0) (0, 0, 0) 1 0.3.

(** * Properties *)

(** ** Comparisons and square roots *)

Lemma Rgtb_true (x y : R) : x > y -> Rgtb x y = true.
Proof. intros H. unfold Rgtb. destruct (Rgt_dec x y); [reflexivity|contradiction]. Qed.

Lemma Rgtb_false (x y : R) : x <= y -> Rgtb x y = false.
Proof. intros H. unfold Rgtb. destruct (Rgt_dec x y); [lra|reflexivity]. Qed.

Lemma Rltb_true (x y : R) : x < y -> Rltb x y = true.
Proof. intros H. unfold Rltb. destruct (Rlt_dec x y); [reflexivity|contradiction]. Qed.

Lemma Rltb_false (x y : R) : y <= x -> Rltb x y = false.
Proof. intros H. unfold Rltb. destruct (Rlt_dec x y); [lra|reflexivity]. Qed.

Lemma Rgtb_spec (x y : R) : Rgtb x y = true <-> x > y.
Proof.
  unfold Rgtb. destruct (Rgt_dec x y); split; intros; trivial; try discriminate; contradiction.
Qed.

Lemma Rltb_spec (x y : R) : Rltb x y = true <-> x < y.
Proof.
  unfold Rltb. destruct (Rlt_dec x y); split; intros; trivial; try discriminate; contradiction.
Qed.

(** ** The store *)

Section StoreFacts.
Context {A : Type} (idOf : A -> string).

Lemma removeObject_absent (i : string) (objects : list A) :
  ~ In i (map idOf objects) -> removeObject idOf i objects = objects.
Proof.
  induction objects as [|o os IH]; intros Hni; [reflexivity|].
  cbn in *. destruct (String.eqb_spec (idOf o) i) as [E|Hne].
  - exfalso. apply Hni. now left.
  - cbn. f_equal. apply IH. intros Hin. apply Hni. now right.
Qed.

Lemma updateObject_absent (object : A) (objects : list A) :
  ~ In (idOf object) (map idOf objects) ->
  updateObject idOf object objects = objects.
Proof.
  induction objects as [|o os IH]; intros Hni; [reflexivity|].
  cbn in *. destruct (String.eqb_spec (idOf o) (idOf object)) as [E|Hne].
  - exfalso. apply Hni. now left.
  - f_equal. apply IH. intros Hin. apply Hni. now right.
Qed.

Lemma removeObject_In (i : string) (objects : list A) (o : A) :
  In o (removeObject idOf i objects) <-> In o objects /\ idOf o <> i.
Proof.
  unfold removeObject. rewrite filter_In, negb_true_iff.
  split; intros [H1 H2]; split; trivial; now apply String.eqb_neq.
Qed.

End StoreFacts.

(** C9. Unknown identifiers are ignored by the store: when no object of the
    list has the identifier, [removeObject] returns the list unchanged, and
    [updateObject] with an object carrying that identifier returns the list
    unchanged as well. *)
Theorem store_unknown_id_noop (objects : list SpaceTimeObject)
    (object : SpaceTimeObject) :
  ~ In (id object) (map id objects) ->
  removeObject id (id object) objects = objects /\
  updateObject id object objects = objects.
Proof.
  intros H. split.
  - now apply removeObject_absent.
  - now apply updateObject_absent.
Qed.

(** ** Arrays *)

Lemma assign_length {A : Type} (i : nat) (x : A) (l : list A) :
  List.length (assign i x l) = List.length l.
Proof.
  revert i. induction l as [|h t IH]; intros [|i]; cbn; auto.
Qed.

Lemma assign_same {A : Type} (i : nat) (x : A) (l : list A) :
  (i < List.length l)%nat -> nth_error (assign i x l) i = Some x.
Proof.
  revert i. induction l as [|h t IH]; intros [|i] H; cbn in *; try lia; auto.
  apply IH. lia.
Qed.

Lemma assign_other {A : Type} (i k : nat) (x : A) (l : list A) :
  i <> k -> nth_error (assign i x l) k = nth_error l k.
Proof.
  revert i k. induction l as [|h t IH]; intros [|i] [|k] H; cbn; auto.
  congruence.
Qed.

(** ** The inner loop *)

Lemma interact_frame (p v : vec3) (obj other : SpaceTimeObject)
    (rm : list string) :
  let '(obj', rm', f) := interact p v obj other rm in
  statics obj' = statics obj /\ position obj' = position obj /\
  rm' = match f with Break => rm ++ [id obj] | Continue => rm end.
Proof.
  unfold interact.
  destruct (Rgtb (separation p other) 10).
  - repeat split; auto.
  - cbv zeta. destruct (Rltb _ _).
    + destruct (type other); cbn.
      * destruct (type obj); repeat split; auto.
      * repeat split; auto.
    + repeat split; auto.
Qed.

Lemma statics_id (o o' : SpaceTimeObject) : statics o = statics o' -> id o = id o'.
Proof. unfold statics. congruence. Qed.

Lemma statics_radius (o o' : SpaceTimeObject) :
  statics o = statics o' -> radius o = radius o'.
Proof. unfold statics. congruence. Qed.

Lemma statics_mass (o o' : SpaceTimeObject) :
  statics o = statics o' -> mass o = mass o'.
Proof. unfold statics. congruence. Qed.

Lemma gravity_loop_frame (i : nat) (p v : vec3) (others : list SpaceTimeObject) :
  forall (j : nat) (obj : SpaceTimeObject) (rm : list string),
  let '(obj', rm', f) := gravity_loop i p v j others obj rm in
  statics obj' = statics obj /\ position obj' = position obj /\
  rm' = match f with Break => rm ++ [id obj] | Continue => rm end.
Proof.
  induction others as [|other rest IH]; intros j obj rm; cbn.
  - repeat split; auto.
  - destruct (Nat.eqb i j).
    + apply IH.
    + pose proof (interact_frame p v obj other rm) as Hi.
      destruct (interact p v obj other rm) as [[obj1 rm1] [|]].
      * specialize (IH (S j) obj1 rm1).
        destruct (gravity_loop i p v (S j) rest obj1 rm1) as [[obj2 rm2] f2].
        destruct Hi as (Hs & Hp & Hr), IH as (Hs' & Hp' & Hr').
        subst rm1. rewrite (statics_id _ _ Hs) in Hr'.
        repeat split; congruence.
      * exact Hi.
Qed.

(** The removal list is only written, never read: the object and the way the
    loop is left do not depend on it. *)
Lemma interact_removals_irrelevant (p v : vec3) (obj other : SpaceTimeObject)
    (rm rm0 : list string) :
  let '(obj', _, f) := interact p v obj other rm in
  let '(obj0, _, f0) := interact p v obj other rm0 in
  obj' = obj0 /\ f = f0.
Proof.
  unfold interact.
  destruct (Rgtb (separation p other) 10); [now split|].
  cbv zeta. destruct (Rltb _ _); [|now split].
  destruct (type other); [|now split].
  destruct (type (set_velocity obj _)); now split.
Qed.

Lemma gravity_loop_removals_irrelevant (i : nat) (p v : vec3)
    (others : list SpaceTimeObject) :
  forall (j : nat) (obj : SpaceTimeObject) (rm rm0 : list string),
  let '(obj', _, f) := gravity_loop i p v j others obj rm in
  let '(obj0, _, f0) := gravity_loop i p v j others obj rm0 in
  obj' = obj0 /\ f = f0.
Proof.
  induction others as [|other rest IH]; intros j obj rm rm0; cbn.
  - now split.
  - destruct (Nat.eqb i j); [apply IH|].
    pose proof (interact_removals_irrelevant p v obj other rm rm0) as Hi.
    destruct (interact p v obj other rm) as [[obj1 rm1] f1].
    destruct (interact p v obj other rm0) as [[obj2 rm2] f2].
    destruct Hi as [-> ->]. destruct f2; [apply IH|now split].
Qed.

(** ** The outer loop *)

Lemma map_assign {A B : Type} (f : A -> B) (i : nat) (x y : A) (l : list A) :
  nth_error l i = Some y -> f x = f y -> map f (assign i x l) = map f l.
Proof.
  revert i. induction l as [|h t IH]; intros [|i] Hn Hf; cbn in *;
    try discriminate.
  - congruence.
  - f_equal. now apply IH.
Qed.

(** What one iteration does to the state, when index [i] is in the array. *)
Lemma frame_body_Some (s : frame_state) (i : nat) (obj : SpaceTimeObject) :
  nth_error (updatedObjects s) i = Some obj ->
  exists obj' rm' f,
    gravity_loop i (position obj) (velocity obj) 0 (updatedObjects s)
      (set_position obj (advance (position obj) (velocity obj)))
      (objectsToRemove s) = (obj', rm', f) /\
    statics obj' = statics obj /\
    position obj' = advance (position obj) (velocity obj) /\
    rm' = match f with
          | Break => objectsToRemove s ++ [id obj]
          | Continue => objectsToRemove s
          end /\
    updatedObjects (frame_body s i) = assign i obj' (updatedObjects s) /\
    storeObjects (frame_body s i) =
      updateObject (ref_id (assign i obj' (updatedObjects s))) i (storeObjects s) /\
    objectsToRemove (frame_body s i) =
      if out_of_bounds (position obj) then rm' ++ [id obj] else rm'.
Proof.
  intros Hn. unfold frame_body. rewrite Hn.
  pose proof (gravity_loop_frame i (position obj) (velocity obj)
                (updatedObjects s) 0
                (set_position obj (advance (position obj) (velocity obj)))
                (objectsToRemove s)) as H.
  destruct (gravity_loop _ _ _ _ _ _ _) as [[obj' rm'] f].
  destruct H as (Hs & Hp & Hr). exists obj', rm', f.
  rewrite (statics_id _ _ Hs). cbn. repeat split; auto.
Qed.

Lemma frame_body_None (s : frame_state) (i : nat) :
  nth_error (updatedObjects s) i = None -> frame_body s i = s.
Proof. intros Hn. unfold frame_body. now rewrite Hn. Qed.

Lemma frame_body_statics (s : frame_state) (i : nat) :
  map statics (updatedObjects (frame_body s i)) = map statics (updatedObjects s).
Proof.
  destruct (nth_error (updatedObjects s) i) as [obj|] eqn:Hn.
  - destruct (frame_body_Some s i obj Hn) as (obj' & rm' & f & _ & Hs & _ & _ & Hu & _).
    rewrite Hu. now apply map_assign with (y := obj).
  - now rewrite frame_body_None.
Qed.

Lemma frame_body_other (s : frame_state) (i k : nat) :
  i <> k ->
  nth_error (updatedObjects (frame_body s i)) k = nth_error (updatedObjects s) k.
Proof.
  intros Hik. destruct (nth_error (updatedObjects s) i) as [obj|] eqn:Hn.
  - destruct (frame_body_Some s i obj Hn) as (obj' & rm' & f & _ & _ & _ & _ & Hu & _).
    rewrite Hu. now apply assign_other.
  - now rewrite frame_body_None.
Qed.

Lemma frame_before_S (i : nat) (objects : list SpaceTimeObject) :
  frame_before (S i) objects = frame_body (frame_before i objects) i.
Proof.
  unfold frame_before. rewrite seq_S, fold_left_app. reflexivity.
Qed.

Lemma frame_before_statics (i : nat) (objects : list SpaceTimeObject) :
  map statics (updatedObjects (frame_before i objects)) = map statics objects.
Proof.
  induction i as [|i IH]; [reflexivity|].
  rewrite frame_before_S, frame_body_statics. exact IH.
Qed.

Lemma frame_before_length (i : nat) (objects : list SpaceTimeObject) :
  List.length (updatedObjects (frame_before i objects)) = List.length objects.
Proof.
  rewrite <- (length_map statics), frame_before_statics. apply length_map.
Qed.

(** The objects from index [i] on are untouched before iteration [i]. *)
Lemma frame_before_later (i k : nat) (objects : list SpaceTimeObject) :
  (i <= k)%nat ->
  nth_error (updatedObjects (frame_before i objects)) k = nth_error objects k.
Proof.
  induction i as [|i IH]; intros Hik; [reflexivity|].
  rewrite frame_before_S, frame_body_other by lia. apply IH. lia.
Qed.

(** After its own iteration an object is not assigned again in the frame. *)
Lemma frame_before_earlier (i n k : nat) (objects : list SpaceTimeObject) :
  (k < i)%nat -> (i <= n)%nat ->
  nth_error (updatedObjects (frame_before n objects)) k =
  nth_error (updatedObjects (frame_before i objects)) k.
Proof.
  intros Hki Hin. induction Hin as [|n Hin IH]; [reflexivity|].
  rewrite frame_before_S, frame_body_other by lia. exact IH.
Qed.

Lemma statics_nth (l l' : list SpaceTimeObject) (k : nat) (o o' : SpaceTimeObject) :
  map statics l = map statics l' ->
  nth_error l k = Some o -> nth_error l' k = Some o' -> statics o = statics o'.
Proof.
  intros Hm Hl Hl'.
  apply (map_nth_error statics) in Hl, Hl'. rewrite Hm in Hl. congruence.
Qed.

(** The position of every object after the loop is its position before the
    frame advanced by its velocity before the frame. *)
Lemma physicsLoop_positions (objects : list SpaceTimeObject) :
  map position (updatedObjects (physicsLoop objects)) =
  map (fun o => advance (position o) (velocity o)) objects.
Proof.
  apply nth_error_ext. intros k. rewrite !nth_error_map.
  unfold physicsLoop.
  destruct (Nat.lt_ge_cases k (List.length objects)) as [Hk|Hk].
  - rewrite (frame_before_earlier (S k)) by lia.
    rewrite frame_before_S.
    pose proof (frame_before_later k k objects (Nat.le_refl k)) as Hl.
    destruct (nth_error objects k) as [o|] eqn:Ho.
    + destruct (frame_body_Some _ k o Hl)
        as (obj' & rm' & f & _ & _ & Hp & _ & Hu & _).
      rewrite Hu, assign_same.
      * cbn. now rewrite Hp.
      * apply nth_error_Some. congruence.
    + apply nth_error_None in Ho. lia.
  - pose proof Hk as Hk'. apply nth_error_None in Hk'. rewrite Hk'.
    rewrite <- (frame_before_length (List.length objects) objects) in Hk.
    apply nth_error_None in Hk. now rewrite Hk.
Qed.

(** ** Which identifiers the loop marks for removal *)

Lemma absorbed_flow (i : nat) (objects : list SpaceTimeObject)
    (obj obj' : SpaceTimeObject) (rm rm' : list string) (f : flow) :
  nth_error (updatedObjects (frame_before i objects)) i = Some obj ->
  gravity_loop i (position obj) (velocity obj) 0
    (updatedObjects (frame_before i objects))
    (set_position obj (advance (position obj) (velocity obj))) rm
    = (obj', rm', f) ->
  absorbed i objects = match f with Break => true | Continue => false end.
Proof.
  intros Hn Hg. unfold absorbed. rewrite Hn.
  pose proof (gravity_loop_removals_irrelevant i (position obj) (velocity obj)
                (updatedObjects (frame_before i objects)) 0
                (set_position obj (advance (position obj) (velocity obj)))
                rm []) as H.
  rewrite Hg in H.
  destruct (gravity_loop _ _ _ _ _ _ []) as [[obj0 rm0] f0].
  destruct H as [_ ->]. reflexivity.
Qed.

(** An identifier is on the removal list after [n] iterations exactly when it
    is the identifier of one of the first [n] objects and that object was out
    of bounds at the start of the frame or left its inner loop by [break]. *)
Lemma removals_spec (n : nat) (objects : list SpaceTimeObject) (x : string) :
  In x (objectsToRemove (frame_before n objects)) <->
  exists k o, (k < n)%nat /\ nth_error objects k = Some o /\ id o = x /\
              (out_of_bounds (position o) = true \/ absorbed k objects = true).
Proof.
  induction n as [|n IH].
  - cbn. split; [tauto|]. intros (k & _ & Hk & _). lia.
  - rewrite frame_before_S.
    pose proof (frame_before_later n n objects (Nat.le_refl n)) as Hl.
    destruct (nth_error objects n) as [obj|] eqn:Ho.
    + destruct (frame_body_Some _ n obj Hl)
        as (obj' & rm' & f & Hg & _ & _ & Hr & _ & _ & Hrm).
      pose proof (absorbed_flow n objects obj obj' _ rm' f Hl Hg) as Ha.
      rewrite Hrm, Hr. clear Hrm Hr Hg.
      assert (Hstep :
        In x (if out_of_bounds (position obj)
              then match f with
                   | Break => objectsToRemove (frame_before n objects) ++ [id obj]
                   | Continue => objectsToRemove (frame_before n objects)
                   end ++ [id obj]
              else match f with
                   | Break => objectsToRemove (frame_before n objects) ++ [id obj]
                   | Continue => objectsToRemove (frame_before n objects)
                   end) <->
        In x (objectsToRemove (frame_before n objects)) \/
        (id obj = x /\ (out_of_bounds (position obj) = true \/
                        absorbed n objects = true))).
      { rewrite Ha. destruct (out_of_bounds (position obj)), f;
          rewrite ?in_app_iff; cbn; intuition congruence. }
      rewrite Hstep, IH. split.
      * intros [(k & o & Hk & Hko & Hid & Hc)|(Hid & Hc)].
        -- exists k, o. repeat split; auto.
        -- exists n, obj. repeat split; auto.
      * intros (k & o & Hk & Hko & Hid & Hc).
        destruct (Nat.eq_dec k n) as [->|Hne].
        -- right. rewrite Ho in Hko. injection Hko as <-. auto.
        -- left. exists k, o. repeat split; auto. lia.
    + rewrite frame_body_None by assumption. rewrite IH. split.
      * intros (k & o & Hk & Hko & Hid & Hc). exists k, o. repeat split; auto.
      * intros (k & o & Hk & Hko & Hid & Hc). exists k, o. repeat split; auto.
        destruct (Nat.eq_dec k n) as [->|Hne]; [congruence|lia].
Qed.

(** ** The store after the frame *)

Lemma removeAll_In (heap : list SpaceTimeObject) (ids : list string) :
  forall (refs : list nat) (r : nat),
  In r (removeAll heap ids refs) <-> In r refs /\ ~ In (ref_id heap r) ids.
Proof.
  unfold removeAll. induction ids as [|i ids IH]; intros refs r; cbn.
  - tauto.
  - rewrite IH, removeObject_In. intuition congruence.
Qed.

Lemma resolve_In (heap : list SpaceTimeObject) (refs : list nat)
    (o : SpaceTimeObject) :
  In o (resolve heap refs) <-> exists r, In r refs /\ nth_error heap r = Some o.
Proof.
  unfold resolve. rewrite in_flat_map. split; intros (r & Hr & Ho); exists r.
  - split; [assumption|]. destruct (nth_error heap r); cbn in Ho; [|tauto].
    destruct Ho as [->|[]]. reflexivity.
  - split; [assumption|]. rewrite Ho. now left.
Qed.

Lemma ref_id_Some (heap : list SpaceTimeObject) (r : nat) (o : SpaceTimeObject) :
  nth_error heap r = Some o -> ref_id heap r = id o.
Proof. intros H. unfold ref_id. now rewrite H. Qed.

(** Every object of the store after the frame is an object of the array
    after the loop whose identifier was not marked for removal. *)
Lemma physicsFrame_In (objects : list SpaceTimeObject) (o : SpaceTimeObject) :
  In o (physicsFrame objects) <->
  exists r, In r (storeObjects (physicsLoop objects)) /\
            nth_error (updatedObjects (physicsLoop objects)) r = Some o /\
            ~ In (id o) (objectsToRemove (physicsLoop objects)).
Proof.
  unfold physicsFrame. cbv zeta. rewrite resolve_In.
  split.
  - intros (r & Hr & Ho). apply removeAll_In in Hr. destruct Hr as [Hr Hni].
    rewrite (ref_id_Some _ _ _ Ho) in Hni. eauto.
  - intros (r & Hr & Ho & Hni). exists r. split; [|assumption].
    apply removeAll_In. rewrite (ref_id_Some _ _ _ Ho). auto.
Qed.

Lemma statics_ids (l l' : list SpaceTimeObject) :
  map statics l = map statics l' -> map id l = map id l'.
Proof.
  intros H.
  assert (E : forall l0, map id l0 = map (fun s => fst (fst (fst s))) (map statics l0)).
  { intros l0. rewrite map_map. reflexivity. }
  now rewrite (E l), (E l'), H.
Qed.

(** With pairwise different identifiers [updateObject] replaces a reference
    by itself only, so the array of the store keeps its references. *)
Lemma updateObject_refs (heap : list SpaceTimeObject) (i n : nat) :
  NoDup (map id heap) -> n = List.length heap -> (i < n)%nat ->
  updateObject (ref_id heap) i (seq 0 n) = seq 0 n.
Proof.
  intros Hnd -> Hi. unfold updateObject.
  rewrite <- (map_id (seq 0 (List.length heap))) at 2.
  apply map_ext_in. intros r Hr. apply in_seq in Hr.
  destruct (String.eqb_spec (ref_id heap r) (ref_id heap i)) as [E|_];
    [|reflexivity].
  pose proof (proj1 (NoDup_nth_error (map id heap)) Hnd) as Hinj.
  symmetry. apply Hinj.
  - rewrite length_map. lia.
  - rewrite !nth_error_map. unfold ref_id in E.
    destruct (nth_error heap r) eqn:E1, (nth_error heap i) eqn:E2; cbn;
      try congruence;
      try (apply nth_error_None in E1; lia);
      try (apply nth_error_None in E2; lia).
Qed.

Lemma frame_before_store (n : nat) (objects : list SpaceTimeObject) :
  NoDup (map id objects) ->
  storeObjects (frame_before n objects) = seq 0 (List.length objects).
Proof.
  intros Hnd. induction n as [|n IH]; [reflexivity|].
  rewrite frame_before_S.
  destruct (nth_error (updatedObjects (frame_before n objects)) n) as [obj|] eqn:Hn.
  - destruct (frame_body_Some _ n obj Hn)
      as (obj' & rm' & f & _ & Hs & _ & _ & Hu & Hst & _).
    rewrite Hst, IH. apply updateObject_refs.
    + rewrite <- Hu, <- frame_before_S.
      rewrite (statics_ids _ objects) by apply frame_before_statics.
      assumption.
    + now rewrite assign_length, frame_before_length.
    + rewrite <- (frame_before_length n objects).
      apply nth_error_Some. congruence.
  - rewrite frame_body_None by assumption. exact IH.
Qed.

(** ** Absorption *)

(** The inner loop is left by [break] as soon as some other object of the
    array, at an index different from [i], is a black hole within the cutoff
    whose sphere overlaps the sphere of [obj]. *)
Lemma gravity_loop_absorbs (i : nat) (p v : vec3)
    (others : list SpaceTimeObject) :
  forall (j m : nat) (obj other : SpaceTimeObject) (rm : list string),
  nth_error others m = Some other -> i <> (j + m)%nat ->
  type other = BlackHole ->
  separation p other <= 10 ->
  separation p other < radius obj + radius other ->
  let '(_, _, f) := gravity_loop i p v j others obj rm in f = Break.
Proof.
  induction others as [|o rest IH]; intros j m obj other rm Hn Hij Ht Hc Hr.
  - destruct m; discriminate.
  - cbn. destruct m as [|m]; cbn in Hn.
    + injection Hn as ->. rewrite Nat.add_0_r in Hij.
      apply Nat.eqb_neq in Hij. rewrite Hij.
      unfold interact. rewrite Rgtb_false by assumption.
      cbn [radius set_velocity]. rewrite Rltb_true by assumption.
      rewrite Ht. reflexivity.
    + assert (Hij' : i <> (S j + m)%nat) by lia.
      destruct (Nat.eqb i j).
      * exact (IH (S j) m obj other rm Hn Hij' Ht Hc Hr).
      * pose proof (interact_frame p v obj o rm) as Hi.
        destruct (interact p v obj o rm) as [[obj1 rm1] [|]]; [|reflexivity].
        destruct Hi as (Hs & _ & _). apply statics_radius in Hs.
        rewrite <- Hs in Hr.
        exact (IH (S j) m obj1 other rm1 Hn Hij' Ht Hc Hr).
Qed.

(** Any object whose sphere, at its turn in the loop, overlaps the sphere of
    a black hole within the cutoff is gone from the store after the frame. *)
Lemma black_hole_overlap_removed (objects : list SpaceTimeObject) (i j : nat)
    (obj other : SpaceTimeObject) :
  nth_error objects i = Some obj ->
  nth_error (updatedObjects (frame_before i objects)) j = Some other ->
  i <> j ->
  type other = BlackHole ->
  separation (position obj) other <= 10 ->
  separation (position obj) other < radius obj + radius other ->
  absorbed i objects = true /\
  forall o, In o (physicsFrame objects) -> id o <> id obj.
Proof.
  intros Hi Hj Hij Ht Hc Hr.
  assert (Ha : absorbed i objects = true).
  { unfold absorbed. rewrite frame_before_later, Hi by lia.
    pose proof (gravity_loop_absorbs i (position obj) (velocity obj)
                  (updatedObjects (frame_before i objects)) 0 j
                  (set_position obj (advance (position obj) (velocity obj)))
                  other [] Hj Hij Ht Hc Hr) as H.
    destruct (gravity_loop _ _ _ _ _ _ _) as [[o1 r1] f]. now subst f. }
  split; [exact Ha|].
  intros o Ho Hid. apply physicsFrame_In in Ho.
  destruct Ho as (r & _ & _ & Hni). apply Hni.
  unfold physicsLoop. apply removals_spec. exists i, obj.
  repeat split; auto.
  apply nth_error_Some. congruence.
Qed.

(** The frame assigns only [position] and [velocity]: the object at an index
    of the array keeps its identifier, type, mass and radius. *)
Lemma frame_statics_nth (n k : nat) (objects : list SpaceTimeObject)
    (o o' : SpaceTimeObject) :
  nth_error objects k = Some o ->
  nth_error (updatedObjects (frame_before n objects)) k = Some o' ->
  statics o' = statics o.
Proof.
  intros Ho Ho'.
  exact (statics_nth _ _ k o' o (frame_before_statics n objects) Ho' Ho).
Qed.

(** ** The body of the inner loop, case by case *)

Lemma interact_far (p v : vec3) (obj other : SpaceTimeObject) (rm : list string) :
  separation p other > 10 -> interact p v obj other rm = (obj, rm, Continue).
Proof. intros H. unfold interact. now rewrite Rgtb_true. Qed.

Lemma interact_pull (p v : vec3) (obj other : SpaceTimeObject) (rm : list string) :
  separation p other <= 10 ->
  radius obj + radius other <= separation p other ->
  interact p v obj other rm =
  (set_velocity obj (vadd v (gravity_force p other)), rm, Continue).
Proof.
  intros H1 H2. unfold interact. rewrite Rgtb_false by assumption.
  cbn [radius set_velocity]. now rewrite Rltb_false.
Qed.

Lemma interact_absorb (p v : vec3) (obj other : SpaceTimeObject) (rm : list string) :
  separation p other <= 10 ->
  separation p other < radius obj + radius other ->
  type other = BlackHole ->
  interact p v obj other rm =
  (set_velocity obj (vadd v (gravity_force p other)), rm ++ [id obj], Break).
Proof.
  intros H1 H2 Ht. unfold interact. rewrite Rgtb_false by assumption.
  cbn [radius set_velocity]. rewrite Rltb_true by assumption. now rewrite Ht.
Qed.

Lemma interact_bounce (p v : vec3) (obj other : SpaceTimeObject) (rm : list string) :
  separation p other <= 10 ->
  separation p other < radius obj + radius other ->
  type other = Planet -> type obj = Planet ->
  interact p v obj other rm =
  (set_velocity obj
     (elastic (set_velocity obj (vadd v (gravity_force p other))) other),
   rm, Continue).
Proof.
  intros H1 H2 Ht Ht'. unfold interact. rewrite Rgtb_false by assumption.
  cbn [radius set_velocity type]. rewrite Rltb_true by assumption.
  now rewrite Ht, Ht'.
Qed.

Lemma interact_pass (p v : vec3) (obj other : SpaceTimeObject) (rm : list string) :
  separation p other <= 10 ->
  separation p other < radius obj + radius other ->
  type other = Planet -> type obj = BlackHole ->
  interact p v obj other rm =
  (set_velocity obj (vadd v (gravity_force p other)), rm, Continue).
Proof.
  intros H1 H2 Ht Ht'. unfold interact. rewrite Rgtb_false by assumption.
  cbn [radius set_velocity type]. rewrite Rltb_true by assumption.
  now rewrite Ht, Ht'.
Qed.

Lemma out_of_bounds_spec (px py pz : R) :
  out_of_bounds (px, py, pz) = true <->
  Rabs px > gridSize \/ Rabs pz > gridSize \/ py < -10 \/ py > 10.
Proof.
  unfold out_of_bounds.
  rewrite !orb_true_iff, !Rgtb_spec, Rltb_spec. tauto.
Qed.

Lemma out_of_bounds_false (px py pz : R) :
  Rabs px <= gridSize -> Rabs pz <= gridSize -> -10 <= py <= 10 ->
  out_of_bounds (px, py, pz) = false.
Proof.
  intros Hx Hz [Hy1 Hy2]. unfold out_of_bounds.
  now rewrite !Rgtb_false, Rltb_false by assumption.
Qed.

(** ** One iteration of the outer loop, from the result of its inner loop *)

Lemma frame_before_step (k : nat) (objects : list SpaceTimeObject)
    (obj obj' : SpaceTimeObject) (rm' : list string) (f : flow) :
  nth_error objects k = Some obj ->
  gravity_loop k (position obj) (velocity obj) 0
    (updatedObjects (frame_before k objects))
    (set_position obj (advance (position obj) (velocity obj))) []
    = (obj', rm', f) ->
  updatedObjects (frame_before (S k) objects) =
    assign k obj' (updatedObjects (frame_before k objects)) /\
  absorbed k objects = match f with Break => true | Continue => false end /\
  objectsToRemove (frame_before (S k) objects) =
    objectsToRemove (frame_before k objects)
    ++ match f with Break => [id obj] | Continue => [] end
    ++ (if out_of_bounds (position obj) then [id obj] else []).
Proof.
  intros Ho Hg.
  pose proof (frame_before_later k k objects (Nat.le_refl k)) as Hl.
  rewrite Ho in Hl.
  destruct (frame_body_Some _ k obj Hl)
    as (obj1 & rm1 & f1 & Hg1 & _ & _ & Hr & Hu & _ & Hrm).
  pose proof (gravity_loop_removals_irrelevant k (position obj) (velocity obj)
                (updatedObjects (frame_before k objects)) 0
                (set_position obj (advance (position obj) (velocity obj)))
                (objectsToRemove (frame_before k objects)) []) as Hirr.
  rewrite Hg1, Hg in Hirr. destruct Hirr as [-> ->].
  rewrite frame_before_S. repeat split.
  - exact Hu.
  - exact (absorbed_flow k objects obj obj' _ rm' f Hl Hg).
  - rewrite Hrm, Hr.
    destruct f, (out_of_bounds (position obj));
      rewrite <- ?app_assoc, ?app_nil_r; reflexivity.
Qed.

Lemma resolve_removeObject (heap : list SpaceTimeObject) (i : string)
    (refs : list nat) :
  resolve heap (removeObject (ref_id heap) i refs) =
  filter (fun o => negb (String.eqb (id o) i)) (resolve heap refs).
Proof.
  unfold resolve, removeObject.
  induction refs as [|r refs IH]; [reflexivity|].
  cbn [filter flat_map]. rewrite filter_app, <- IH. unfold ref_id at 1.
  destruct (nth_error heap r) as [o|] eqn:Hr.
  - cbn [filter]. destruct (negb (String.eqb (id o) i)); cbn [flat_map app].
    + now rewrite Hr.
    + reflexivity.
  - cbn [filter app]. destruct (negb (String.eqb EmptyString i)); cbn [flat_map].
    + now rewrite Hr.
    + reflexivity.
Qed.

Lemma resolve_removeAll (heap : list SpaceTimeObject) (ids : list string) :
  forall refs : list nat,
  resolve heap (removeAll heap ids refs) =
  filter (fun o => negb (existsb (String.eqb (id o)) ids)) (resolve heap refs).
Proof.
  unfold removeAll. induction ids as [|i ids IH]; intros refs; cbn [fold_left].
  - generalize (resolve heap refs) as l.
    intros l. induction l as [|o l IHl]; cbn; [reflexivity|f_equal; exact IHl].
  - rewrite IH, resolve_removeObject.
    generalize (resolve heap refs) as l.
    intros l. induction l as [|o l IHl]; [reflexivity|].
    cbn [filter existsb]. destruct (String.eqb (id o) i); cbn [negb orb filter].
    + exact IHl.
    + destruct (negb (existsb _ ids)); [f_equal|]; exact IHl.
Qed.

Lemma resolve_seq (heap : list SpaceTimeObject) :
  resolve heap (seq 0 (List.length heap)) = heap.
Proof.
  unfold resolve.
  assert (Hs : forall k l : list SpaceTimeObject, flat_map
            (fun r => match nth_error (k ++ l) r with
                      | Some o => [o] | None => [] end)
            (seq (List.length k) (List.length l)) = l).
  { intros k l. revert k. induction l as [|x l IH]; intros k; [reflexivity|].
    cbn. rewrite nth_error_app2, Nat.sub_diag by lia. cbn. f_equal.
    specialize (IH (k ++ [x])). rewrite <- app_assoc, length_app in IH.
    cbn in IH. rewrite Nat.add_1_r in IH. exact IH. }
  exact (Hs [] heap).
Qed.

(** With pairwise different identifiers the store after the frame is the
    array after the loop without the objects marked for removal. *)
Lemma physicsFrame_filter (objects : list SpaceTimeObject) :
  NoDup (map id objects) ->
  physicsFrame objects =
  filter (fun o => negb (existsb (String.eqb (id o))
                           (objectsToRemove (physicsLoop objects))))
         (updatedObjects (physicsLoop objects)).
Proof.
  intros Hnd. unfold physicsFrame. cbv zeta.
  pose proof (frame_before_store (List.length objects) objects Hnd) as Hst.
  pose proof (frame_before_length (List.length objects) objects) as Hlen.
  fold (physicsLoop objects) in Hst, Hlen. rewrite Hst, <- Hlen.
  now rewrite resolve_removeAll, resolve_seq.
Qed.

(** ** Survival *)

(** With pairwise different identifiers, the object at index [i] is still in
    the store after the frame exactly when the bounds check did not mark it
    and its inner loop was not left by [break]. *)
Lemma survives_iff (objects : list SpaceTimeObject) (i : nat)
    (o : SpaceTimeObject) :
  NoDup (map id objects) ->
  nth_error objects i = Some o ->
  (exists o', In o' (physicsFrame objects) /\ id o' = id o) <->
  out_of_bounds (position o) = false /\ absorbed i objects = false.
Proof.
  intros Hnd Ho.
  assert (Hi : (i < List.length objects)%nat)
    by (apply nth_error_Some; congruence).
  split.
  - intros (o' & Hin & Hid). apply physicsFrame_In in Hin.
    destruct Hin as (r & _ & _ & Hni). rewrite Hid in Hni.
    unfold physicsLoop in Hni. rewrite removals_spec in Hni.
    destruct (out_of_bounds (position o)) eqn:Hb, (absorbed i objects) eqn:Ha;
      try (exfalso; apply Hni; exists i, o; now auto).
    now split.
  - intros [Hb Ha].
    destruct (nth_error (updatedObjects (physicsLoop objects)) i) as [o'|] eqn:Ho'.
    + exists o'.
      assert (Hid : id o' = id o)
        by (apply statics_id; exact (frame_statics_nth _ i objects o o' Ho Ho')).
      split; [|exact Hid].
      apply physicsFrame_In. exists i. repeat split.
      * unfold physicsLoop. rewrite frame_before_store by assumption.
        apply in_seq. lia.
      * exact Ho'.
      * rewrite Hid. unfold physicsLoop. rewrite removals_spec.
        intros (k & ok & Hk & Hok & Hidk & Hc).
        assert (k = i).
        { apply (proj1 (NoDup_nth_error (map id objects)) Hnd).
          - rewrite length_map. lia.
          - rewrite !nth_error_map, Hok, Ho. cbn. now rewrite Hidk. }
        subst k. rewrite Ho in Hok. injection Hok as <-.
        destruct Hc; congruence.
    + apply nth_error_None in Ho'. unfold physicsLoop in Ho'.
      rewrite frame_before_length in Ho'. lia.
Qed.

(** ** The claims about the physics frame *)

(** C3, as the code has it: a planet whose sphere, when its turn in the loop
    comes, overlaps the sphere of a black hole that is no farther away than
    the interaction cutoff (10) is not in the store after the frame; the
    black hole keeps its mass and its radius. *)
Theorem planet_absorbed_by_black_hole (objects : list SpaceTimeObject)
    (i j : nat) (planet hole : SpaceTimeObject) :
  nth_error objects i = Some planet ->
  nth_error (updatedObjects (frame_before i objects)) j = Some hole ->
  i <> j ->
  type planet = Planet ->
  type hole = BlackHole ->
  separation (position planet) hole < radius planet + radius hole ->
  separation (position planet) hole <= 10 ->
  (forall o, In o (physicsFrame objects) -> id o <> id planet) /\
  (exists hole', nth_error (updatedObjects (physicsLoop objects)) j = Some hole' /\
                 mass hole' = mass hole /\ radius hole' = radius hole).
Proof.
  intros Hi Hj Hij _ Ht Hr Hc. split.
  - exact (proj2 (black_hole_overlap_removed objects i j planet hole
                    Hi Hj Hij Ht Hc Hr)).
  - assert (Hlen : (j < List.length objects)%nat).
    { rewrite <- (frame_before_length i objects).
      apply nth_error_Some. congruence. }
    destruct (nth_error objects j) as [h0|] eqn:Hh0;
      [|apply nth_error_None in Hh0; lia].
    destruct (nth_error (updatedObjects (physicsLoop objects)) j) as [h'|] eqn:Hh'.
    + exists h'. split; [reflexivity|].
      pose proof (frame_statics_nth _ j objects h0 h' Hh0 Hh') as H1.
      pose proof (frame_statics_nth _ j objects h0 hole Hh0 Hj) as H2.
      rewrite <- H2 in H1.
      split; [exact (statics_mass _ _ H1)|exact (statics_radius _ _ H1)].
    + apply nth_error_None in Hh'. unfold physicsLoop in Hh'.
      rewrite frame_before_length in Hh'. lia.
Qed.

(** C4, as the code has it: the bounds check marks an object exactly when the
    position it had at the start of the frame has [|x| > gridSize] or
    [|z| > gridSize] (each axis on its own, [gridSize = 20]) or [y < -10] or
    [y > 10], whatever its velocity; and, identifiers being pairwise
    different, an object is in the store after the frame exactly when it was
    not so marked and its inner loop was not left by [break]. *)
Theorem bounds_pruning (objects : list SpaceTimeObject) (i : nat)
    (o : SpaceTimeObject) :
  NoDup (map id objects) ->
  nth_error objects i = Some o ->
  (out_of_bounds (position o) = true <->
   Rabs (fst (fst (position o))) > 20 \/ Rabs (snd (position o)) > 20 \/
   snd (fst (position o)) < -10 \/ snd (fst (position o)) > 10) /\
  ((exists o', In o' (physicsFrame objects) /\ id o' = id o) <->
   out_of_bounds (position o) = false /\ absorbed i objects = false).
Proof.
  intros Hnd Ho. split.
  - destruct (position o) as [[px py] pz]. cbn [fst snd].
    apply out_of_bounds_spec.
  - now apply survives_iff.
Qed.

(** C5, as the code has it: the position is integrated before the forces are
    applied, with the velocity the object had at the start of the frame.
    After the loop every object is at its old position plus its old velocity
    times 0.01, and so is every object left in the store. *)
Theorem position_integrated_with_old_velocity (objects : list SpaceTimeObject) :
  map position (updatedObjects (physicsLoop objects)) =
    map (fun o => advance (position o) (velocity o)) objects /\
  (forall o', In o' (physicsFrame objects) ->
     exists o, In o objects /\ id o' = id o /\
               position o' = advance (position o) (velocity o)).
Proof.
  split; [apply physicsLoop_positions|].
  intros o' Hin. apply physicsFrame_In in Hin.
  destruct Hin as (r & _ & Hr & _).
  assert (Hlen : (r < List.length objects)%nat).
  { rewrite <- (frame_before_length (List.length objects) objects).
    apply nth_error_Some. unfold physicsLoop in Hr. congruence. }
  destruct (nth_error objects r) as [o|] eqn:Ho;
    [|apply nth_error_None in Ho; lia].
  exists o. repeat split.
  - eapply nth_error_In; eauto.
  - apply statics_id. exact (frame_statics_nth _ r objects o o' Ho Hr).
  - pose proof (physicsLoop_positions objects) as Hp.
    apply (f_equal (fun l => nth_error l r)) in Hp.
    rewrite !nth_error_map, Hr, Ho in Hp. cbn in Hp. congruence.
Qed.

(** C6, as the code has it: a black hole whose sphere, when its turn in the
    loop comes, overlaps the sphere of another black hole within the cutoff
    is marked like any other object and is not in the store after the frame.
    The collision rules do not touch the velocity of a black hole: the body
    of the inner loop leaves a black hole as it is or assigns it its old
    velocity plus the pull of [other]. *)
Theorem overlapping_black_holes (objects : list SpaceTimeObject)
    (i j : nat) (hole other : SpaceTimeObject) :
  nth_error objects i = Some hole ->
  nth_error (updatedObjects (frame_before i objects)) j = Some other ->
  i <> j ->
  type hole = BlackHole ->
  type other = BlackHole ->
  separation (position hole) other < radius hole + radius other ->
  separation (position hole) other <= 10 ->
  (forall o, In o (physicsFrame objects) -> id o <> id hole) /\
  (forall p v obj other' rm,
     type obj = BlackHole ->
     fst (fst (interact p v obj other' rm)) = obj \/
     fst (fst (interact p v obj other' rm)) =
       set_velocity obj (vadd v (gravity_force p other'))).
Proof.
  intros Hi Hj Hij _ Ht Hr Hc. split.
  - exact (proj2 (black_hole_overlap_removed objects i j hole other
                    Hi Hj Hij Ht Hc Hr)).
  - intros p v obj other' rm Hobj. unfold interact.
    destruct (Rgtb _ _); [now left|]. cbv zeta.
    destruct (Rltb _ _); [|now right].
    destruct (type other'); [|now right].
    cbn [type set_velocity]. rewrite Hobj. now right.
Qed.

(** ** Evaluating the loop on given objects *)

Lemma frame_before_step_at (k : nat) (objects heap : list SpaceTimeObject)
    (rm : list string) (obj obj' : SpaceTimeObject) (rm' : list string)
    (f : flow) (b : bool) :
  updatedObjects (frame_before k objects) = heap ->
  objectsToRemove (frame_before k objects) = rm ->
  nth_error objects k = Some obj ->
  gravity_loop k (position obj) (velocity obj) 0 heap
    (set_position obj (advance (position obj) (velocity obj))) []
    = (obj', rm', f) ->
  out_of_bounds (position obj) = b ->
  updatedObjects (frame_before (S k) objects) = assign k obj' heap /\
  absorbed k objects = match f with Break => true | Continue => false end /\
  objectsToRemove (frame_before (S k) objects) =
    rm ++ match f with Break => [id obj] | Continue => [] end
       ++ (if b then [id obj] else []).
Proof.
  intros <- <- Ho Hg <-. now apply frame_before_step with (rm' := rm').
Qed.

(** The distance [d] between two given points, from [d * d] under the root. *)
Ltac sep_value d :=
  match goal with
  | |- context [sqrt ?e] =>
      replace (sqrt e) with d
        by (symmetry; replace e with (d * d) by lra; apply sqrt_square; lra)
  end.

Ltac in_bounds :=
  apply out_of_bounds_false; try apply Rabs_le; unfold gridSize; split; lra.

Ltac distinct_ids :=
  cbn; repeat constructor; cbn; intuition discriminate.

(** *** Two planets head-on *)

Lemma separation_a_b : separation (position planet_a) planet_b = 1.
Proof. cbn. sep_value 1. reflexivity. Qed.

Lemma separation_b_a' : separation (position planet_b) planet_a' = 0.99.
Proof. cbn. sep_value 0.99. reflexivity. Qed.

Lemma two_planets_step0 :
  updatedObjects (frame_before 1 two_planets) = [planet_a'; planet_b] /\
  absorbed 0 two_planets = false /\
  objectsToRemove (frame_before 1 two_planets) = [].
Proof.
  apply (frame_before_step_at 0 two_planets two_planets [] planet_a planet_a'
           [] Continue false); try reflexivity.
  - cbn [two_planets gravity_loop Nat.eqb].
    rewrite interact_bounce; [reflexivity| | |reflexivity|reflexivity].
    + rewrite separation_a_b. lra.
    + rewrite separation_a_b. cbn. lra.
  - in_bounds.
Qed.

Lemma two_planets_step1 :
  updatedObjects (frame_before 2 two_planets) = [planet_a'; planet_b'] /\
  absorbed 1 two_planets = false /\
  objectsToRemove (frame_before 2 two_planets) = [].
Proof.
  destruct two_planets_step0 as (Hu0 & _ & Hr0).
  apply (frame_before_step_at 1 two_planets [planet_a'; planet_b] [] planet_b
           planet_b' [] Continue false); try reflexivity; try assumption.
  - cbn [gravity_loop Nat.eqb].
    rewrite interact_bounce; [reflexivity| | |reflexivity|reflexivity].
    + rewrite separation_b_a'. lra.
    + rewrite separation_b_a'. cbn. lra.
  - in_bounds.
Qed.

Lemma velocity_planet_a' : velocity planet_a' = (-1, 0, 0).
Proof.
  unfold planet_a', elastic.
  cbn [velocity set_velocity set_position moved mass planet_a planet_b].
  destruct (pulled _ _) as [[fx fy] fz]. f_equal; [f_equal|]; lra.
Qed.

Lemma velocity_planet_b' : velocity planet_b' = (-1, 0, 0).
Proof.
  unfold planet_b', elastic.
  cbn [velocity set_velocity set_position moved mass planet_b].
  rewrite velocity_planet_a'.
  destruct (pulled _ _) as [[fx fy] fz].
  unfold planet_a'. cbn [mass set_velocity set_position moved planet_a].
  f_equal; [f_equal|]; lra.
Qed.

Lemma physicsFrame_two_planets :
  physicsFrame two_planets = [planet_a'; planet_b'].
Proof.
  rewrite physicsFrame_filter by distinct_ids.
  unfold physicsLoop. cbn [two_planets List.length].
  destruct two_planets_step1 as (-> & _ & ->). reflexivity.
Qed.

(** C1, evaluated on the code: two planets of equal mass whose spheres
    overlap, approaching head-on with velocities +1 and -1, both leave the
    frame with velocity -1.  The total momentum is 0 before the frame and -2
    after it. *)
Theorem equal_mass_planets_do_not_swap :
  separation (position planet_a) planet_b < radius planet_a + radius planet_b /\
  map velocity two_planets = [(1, 0, 0); (-1, 0, 0)] /\
  map velocity (physicsFrame two_planets) = [(-1, 0, 0); (-1, 0, 0)] /\
  total_momentum two_planets = (0, 0, 0) /\
  total_momentum (physicsFrame two_planets) = (-2, 0, 0).
Proof.
  rewrite physicsFrame_two_planets, separation_a_b.
  unfold total_momentum. cbn [map fold_left two_planets].
  rewrite velocity_planet_a', velocity_planet_b'.
  repeat split.
  - cbn. lra.
  - cbn. f_equal; [f_equal|]; lra.
  - cbn [mass planet_a' planet_b' set_velocity].
    cbn. f_equal; [f_equal|]; lra.
Qed.

(** *** Three bodies at rest *)

Lemma three_bodies_step0 :
  updatedObjects (frame_before 1 three_bodies) = [body_a'; body_b; body_c] /\
  absorbed 0 three_bodies = false /\
  objectsToRemove (frame_before 1 three_bodies) = [].
Proof.
  apply (frame_before_step_at 0 three_bodies three_bodies [] body_a body_a'
           [] Continue false); try reflexivity.
  - cbn [three_bodies gravity_loop Nat.eqb].
    rewrite interact_pull.
    + rewrite interact_pull; [reflexivity| |].
      * cbn. sep_value 4. lra.
      * cbn. sep_value 4. lra.
    + cbn. sep_value 3. lra.
    + cbn. sep_value 3. lra.
  - in_bounds.
Qed.

Lemma three_bodies_step1 :
  updatedObjects (frame_before 2 three_bodies) = [body_a'; body_b'; body_c] /\
  absorbed 1 three_bodies = false /\
  objectsToRemove (frame_before 2 three_bodies) = [].
Proof.
  destruct three_bodies_step0 as (Hu0 & _ & Hr0).
  apply (frame_before_step_at 1 three_bodies [body_a'; body_b; body_c] []
           body_b body_b' [] Continue false); try reflexivity; try assumption.
  - cbn [gravity_loop Nat.eqb].
    rewrite interact_pull.
    + rewrite interact_pull; [reflexivity| |].
      * cbn. sep_value 5. lra.
      * cbn. sep_value 5. lra.
    + cbn. sep_value 3. lra.
    + cbn. sep_value 3. lra.
  - in_bounds.
Qed.

Lemma three_bodies_step2 :
  updatedObjects (frame_before 3 three_bodies) = [body_a'; body_b'; body_c'] /\
  absorbed 2 three_bodies = false /\
  objectsToRemove (frame_before 3 three_bodies) = [].
Proof.
  destruct three_bodies_step1 as (Hu1 & _ & Hr1).
  apply (frame_before_step_at 2 three_bodies [body_a'; body_b'; body_c] []
           body_c body_c' [] Continue false); try reflexivity; try assumption.
  - cbn [gravity_loop Nat.eqb].
    rewrite interact_pull.
    + rewrite interact_pull; [reflexivity| |].
      * cbn. sep_value 5. lra.
      * cbn. sep_value 5. lra.
    + cbn. sep_value 4. lra.
    + cbn. sep_value 4. lra.
  - in_bounds.
Qed.

Lemma physicsFrame_three_bodies :
  physicsFrame three_bodies = [body_a'; body_b'; body_c'].
Proof.
  rewrite physicsFrame_filter by distinct_ids.
  unfold physicsLoop. cbn [three_bodies List.length].
  destruct three_bodies_step2 as (-> & _ & ->). reflexivity.
Qed.

Lemma pull_a_b : gravity_force (position body_a) body_b = (0.1 / 9, 0, 0).
Proof.
  unfold gravity_force. cbn [position mass body_a body_b].
  sep_value 3. f_equal; [f_equal|]; lra.
Qed.

Lemma pull_a_c : gravity_force (position body_a) body_c = (0, 0.00625, 0).
Proof.
  unfold gravity_force. cbn [position mass body_a body_c].
  sep_value 4. f_equal; [f_equal|]; lra.
Qed.

Lemma velocity_body_a' : velocity body_a' = (0, 0.00625, 0).
Proof.
  unfold body_a', pulled. cbn [velocity set_velocity]. rewrite pull_a_c.
  cbn. f_equal; [f_equal|]; lra.
Qed.

(** C2, evaluated on the code: with two other bodies within the cutoff, the
    first body leaves the frame with its old velocity plus the pull of the
    last of them only, not plus the sum of the two pulls. *)
Theorem velocity_keeps_last_pull_only :
  separation (position body_a) body_b <= 10 /\
  separation (position body_a) body_c <= 10 /\
  map velocity (physicsFrame three_bodies) =
    [vadd (velocity body_a) (gravity_force (position body_a) body_c);
     velocity body_b'; velocity body_c'] /\
  vadd (velocity body_a) (gravity_force (position body_a) body_c)
    = (0, 0.00625, 0) /\
  vadd (velocity body_a) (accumulated_pull (position body_a) [body_b; body_c])
    = (0.1 / 9, 0.00625, 0).
Proof.
  rewrite physicsFrame_three_bodies.
  assert (Hb : separation (position body_a) body_b = 3)
    by (cbn; sep_value 3; reflexivity).
  assert (Hc : separation (position body_a) body_c = 4)
    by (cbn; sep_value 4; reflexivity).
  repeat split.
  - rewrite Hb. lra.
  - rewrite Hc. lra.
  - rewrite pull_a_c. cbn. f_equal; [f_equal|]; lra.
  - unfold accumulated_pull. cbn [fold_left].
    rewrite !Rgtb_false by (rewrite ?Hb, ?Hc; lra).
    rewrite pull_a_b, pull_a_c. cbn. f_equal; [f_equal|]; lra.
Qed.

(** C5 fails as stated: the first of the three bodies ends the frame where it
    was, although it ends it with a velocity that is not zero. *)
Lemma position_ignores_new_velocity :
  nth_error (physicsFrame three_bodies) 0 = Some body_a' /\
  velocity body_a' = (0, 0.00625, 0) /\
  position body_a' = (0, 0, 0) /\
  position body_a' <> advance (position body_a) (velocity body_a').
Proof.
  rewrite physicsFrame_three_bodies, velocity_body_a'.
  assert (Hp : position body_a' = (0, 0, 0))
    by (cbn; f_equal; [f_equal|]; lra).
  rewrite Hp. repeat split.
  cbn. intros H. injection H as _ H _. lra.
Qed.

(** *** A planet and a black hole beyond the cutoff *)

Lemma separation_far_pair : separation (position big_planet) big_hole = 11.
Proof. cbn. sep_value 11. reflexivity. Qed.

Lemma far_pair_step0 :
  updatedObjects (frame_before 1 far_pair) = [moved big_planet; big_hole] /\
  absorbed 0 far_pair = false /\
  objectsToRemove (frame_before 1 far_pair) = [].
Proof.
  apply (frame_before_step_at 0 far_pair far_pair [] big_planet
           (moved big_planet) [] Continue false); try reflexivity.
  - cbn [far_pair gravity_loop Nat.eqb].
    rewrite interact_far; [reflexivity|].
    rewrite separation_far_pair. lra.
  - in_bounds.
Qed.

Lemma far_pair_step1 :
  updatedObjects (frame_before 2 far_pair) = [moved big_planet; moved big_hole] /\
  absorbed 1 far_pair = false /\
  objectsToRemove (frame_before 2 far_pair) = [].
Proof.
  destruct far_pair_step0 as (Hu0 & _ & Hr0).
  apply (frame_before_step_at 1 far_pair [moved big_planet; big_hole] []
           big_hole (moved big_hole) [] Continue false);
    try reflexivity; try assumption.
  - cbn [gravity_loop Nat.eqb].
    rewrite interact_far; [reflexivity|].
    cbn. sep_value 11. lra.
  - in_bounds.
Qed.

(** C3 fails as stated: a planet and a black hole of radius 6 each, 11 units
    apart, overlap, but the pair is beyond the cutoff, the loop skips it, and
    the planet is still in the store after the frame. *)
Lemma overlap_beyond_cutoff_survives :
  type big_planet = Planet /\ type big_hole = BlackHole /\
  separation (position big_planet) big_hole
    < radius big_planet + radius big_hole /\
  physicsFrame far_pair = [moved big_planet; moved big_hole] /\
  id (moved big_planet) = id big_planet.
Proof.
  rewrite separation_far_pair. repeat split.
  - cbn. lra.
  - rewrite physicsFrame_filter by distinct_ids.
    unfold physicsLoop. cbn [far_pair List.length].
    destruct far_pair_step1 as (-> & _ & ->). reflexivity.
Qed.

(** *** A planet inside a black hole *)

Lemma separation_close_pair :
  separation (position medium_planet) medium_hole = 2.
Proof. cbn. sep_value 2. reflexivity. Qed.

Lemma planet_absorbed_by_black_hole_witness :
  (forall o, In o (physicsFrame close_pair) -> id o <> id medium_planet) /\
  (exists hole',
     nth_error (updatedObjects (physicsLoop close_pair)) 1 = Some hole' /\
     mass hole' = mass medium_hole /\ radius hole' = radius medium_hole).
Proof.
  apply (planet_absorbed_by_black_hole close_pair 0 1 medium_planet medium_hole).
  - reflexivity.
  - reflexivity.
  - discriminate.
  - reflexivity.
  - reflexivity.
  - rewrite separation_close_pair. cbn. lra.
  - rewrite separation_close_pair. lra.
Defined.

(** *** Two black holes *)

Lemma separation_two_holes : separation (position hole_a) hole_b = 1.
Proof. cbn. sep_value 1. reflexivity. Qed.

Lemma two_holes_step0 :
  updatedObjects (frame_before 1 two_holes) =
    [set_velocity (moved hole_a) (pulled hole_a hole_b); hole_b] /\
  absorbed 0 two_holes = true /\
  objectsToRemove (frame_before 1 two_holes) = ["a"%string].
Proof.
  apply (frame_before_step_at 0 two_holes two_holes [] hole_a
           (set_velocity (moved hole_a) (pulled hole_a hole_b))
           ["a"%string] Break false); try reflexivity.
  - cbn [two_holes gravity_loop Nat.eqb].
    rewrite interact_absorb; [reflexivity| | |reflexivity].
    + rewrite separation_two_holes. lra.
    + rewrite separation_two_holes. cbn. lra.
  - in_bounds.
Qed.

Lemma two_holes_step1 :
  updatedObjects (frame_before 2 two_holes) =
    [set_velocity (moved hole_a) (pulled hole_a hole_b);
     set_velocity (moved hole_b)
       (pulled hole_b (set_velocity (moved hole_a) (pulled hole_a hole_b)))] /\
  absorbed 1 two_holes = true /\
  objectsToRemove (frame_before 2 two_holes) = ["a"%string; "b"%string].
Proof.
  destruct two_holes_step0 as (Hu0 & _ & Hr0).
  apply (frame_before_step_at 1 two_holes
           [set_velocity (moved hole_a) (pulled hole_a hole_b); hole_b]
           ["a"%string] hole_b
           (set_velocity (moved hole_b)
              (pulled hole_b (set_velocity (moved hole_a) (pulled hole_a hole_b))))
           ["b"%string] Break false);
    try reflexivity; try assumption.
  - cbn [gravity_loop Nat.eqb].
    rewrite interact_absorb; [reflexivity| | |reflexivity].
    + cbn. sep_value 1. lra.
    + cbn. sep_value 1. lra.
  - in_bounds.
Qed.

(** C6 fails as stated: of two overlapping black holes each is marked when
    its turn comes, and the store is empty after the frame. *)
Lemma overlapping_black_holes_vanish :
  map type two_holes = [BlackHole; BlackHole] /\
  separation (position hole_a) hole_b < radius hole_a + radius hole_b /\
  physicsFrame two_holes = [].
Proof.
  rewrite separation_two_holes. repeat split.
  - cbn. lra.
  - rewrite physicsFrame_filter by distinct_ids.
    unfold physicsLoop. cbn [two_holes List.length].
    destruct two_holes_step1 as (-> & _ & ->). reflexivity.
Qed.

Lemma overlapping_black_holes_witness :
  (forall o, In o (physicsFrame two_holes) -> id o <> id hole_a) /\
  (forall p v obj other' rm,
     type obj = BlackHole ->
     fst (fst (interact p v obj other' rm)) = obj \/
     fst (fst (interact p v obj other' rm)) =
       set_velocity obj (vadd v (gravity_force p other'))).
Proof.
  apply (overlapping_black_holes two_holes 0 1 hole_a hole_b).
  - reflexivity.
  - reflexivity.
  - discriminate.
  - reflexivity.
  - reflexivity.
  - rewrite separation_two_holes. cbn. lra.
  - rewrite separation_two_holes. lra.
Defined.

(** *** One body off the fabric *)

Lemma lone_body_step0 :
  updatedObjects (frame_before 1 [lone_body]) = [moved lone_body] /\
  absorbed 0 [lone_body] = false /\
  objectsToRemove (frame_before 1 [lone_body]) = [].
Proof.
  apply (frame_before_step_at 0 [lone_body] [lone_body] [] lone_body
           (moved lone_body) [] Continue false); try reflexivity.
  in_bounds.
Qed.

(** C4 fails as stated: a body 15 units from the origin is farther from it
    than half the side of the grid, and is still in the store after the
    frame. *)
Lemma beyond_half_grid_survives :
  distance_from_origin (position lone_body) > gridSize / 2 /\
  -10 <= snd (fst (position lone_body)) <= 10 /\
  physicsFrame [lone_body] = [moved lone_body].
Proof.
  repeat split.
  - cbn. sep_value 15. unfold gridSize. lra.
  - cbn. lra.
  - cbn. lra.
  - rewrite physicsFrame_filter by distinct_ids.
    unfold physicsLoop. cbn [List.length].
    destruct lone_body_step0 as (-> & _ & ->). reflexivity.
Qed.

Lemma bounds_pruning_witness :
  (out_of_bounds (position lone_body) = true <->
   Rabs (fst (fst (position lone_body))) > 20 \/
   Rabs (snd (position lone_body)) > 20 \/
   snd (fst (position lone_body)) < -10 \/
   snd (fst (position lone_body)) > 10) /\
  ((exists o', In o' (physicsFrame [lone_body]) /\ id o' = id lone_body) <->
   out_of_bounds (position lone_body) = false /\
   absorbed 0 [lone_body] = false).
Proof.
  apply (bounds_pruning [lone_body] 0 lone_body).
  - distinct_ids.
  - reflexivity.
Defined.

Lemma store_unknown_id_noop_witness :
  removeObject id (id planet_b) [planet_a] = [planet_a] /\
  updateObject id planet_b [planet_a] = [planet_a].
Proof.
  apply (store_unknown_id_noop [planet_a] planet_b).
  cbn. intros [H|[]]. discriminate.
Defined.

(** ** The fabric deformation *)

Lemma deform_unfold (x z y : R) (obj : SpaceTimeObject) :
  deform x z y obj =
  if Rgtb (horizontalDistance x z obj) (mass obj * 4) then y
  else y - (mass obj * 2.0) / (horizontalDistance x z obj + 0.2).
Proof.
  unfold deform, horizontalDistance.
  destruct (position obj) as [[objX objY] objZ]. reflexivity.
Qed.

Lemma horizontalDistance_nonneg (x z : R) (obj : SpaceTimeObject) :
  0 <= horizontalDistance x z obj.
Proof.
  unfold horizontalDistance. destruct (position obj) as [[objX objY] objZ].
  apply sqrt_pos.
Qed.

(** The amount subtracted for an object of positive mass is positive. *)
Lemma deformation_positive (m d : R) : 0 < m -> 0 <= d -> 0 < (m * 2.0) / (d + 0.2).
Proof.
  intros Hm Hd. apply Rdiv_lt_0_compat; lra.
Qed.

Lemma deform_lowers (x z y : R) (obj : SpaceTimeObject) :
  0 < mass obj -> deform x z y obj = y \/ deform x z y obj < y.
Proof.
  intros Hm. rewrite deform_unfold.
  destruct (Rgtb _ _); [now left|right].
  pose proof (deformation_positive (mass obj) (horizontalDistance x z obj) Hm
                (horizontalDistance_nonneg x z obj)).
  lra.
Qed.

Lemma fold_deform_le (x z : R) (objects : list SpaceTimeObject) :
  Forall (fun o => 0 < mass o) objects ->
  forall y, fold_left (deform x z) objects y <= y.
Proof.
  induction 1 as [|obj objects Hm _ IH]; intros y; cbn; [lra|].
  specialize (IH (deform x z y obj)).
  destruct (deform_lowers x z y obj Hm) as [E|Hlt]; lra.
Qed.

(** The height of a vertex after the deformation frame with one object. *)
Lemma deformationFrame_single (obj : SpaceTimeObject) (x y z : R) :
  deformationFrame [obj] [(x, y, z)] = [(x, deform x z 0 obj, z)].
Proof. reflexivity. Qed.

(** C7, as the code has it: with one object of positive mass, of two vertices
    the one farther from the object is displaced strictly less, as long as
    the nearer one is within the cutoff (its horizontal distance is at most
    four times the mass); a vertex beyond the cutoff is not displaced at
    all. *)
Theorem deformation_decreases_within_cutoff (obj : SpaceTimeObject)
    (x1 y1 z1 x2 y2 z2 : R) :
  0 < mass obj ->
  horizontalDistance x1 z1 obj < horizontalDistance x2 z2 obj ->
  horizontalDistance x1 z1 obj <= mass obj * 4 ->
  (exists h1 h2,
     deformationFrame [obj] [(x1, y1, z1); (x2, y2, z2)] =
       [(x1, h1, z1); (x2, h2, z2)] /\
     Rabs h2 < Rabs h1) /\
  (forall x y z, horizontalDistance x z obj > mass obj * 4 ->
     deformationFrame [obj] [(x, y, z)] = [(x, 0, z)]).
Proof.
  intros Hm Hlt Hcut. split.
  - exists (deform x1 z1 0 obj), (deform x2 z2 0 obj). split; [reflexivity|].
    rewrite !deform_unfold, (Rgtb_false (horizontalDistance x1 z1 obj)) by lra.
    pose proof (horizontalDistance_nonneg x1 z1 obj) as H1.
    set (d1 := horizontalDistance x1 z1 obj) in *.
    set (d2 := horizontalDistance x2 z2 obj) in *.
    pose proof (deformation_positive (mass obj) d1 Hm H1) as P1.
    assert (H2 : 0 <= d2) by lra.
    pose proof (deformation_positive (mass obj) d2 Hm H2) as P2.
    rewrite (Rabs_left (0 - mass obj * 2.0 / (d1 + 0.2))) by lra.
    destruct (Rgtb d2 (mass obj * 4)).
    + rewrite Rabs_R0. lra.
    + rewrite Rabs_left by lra.
      assert (mass obj * 2.0 / (d2 + 0.2) < mass obj * 2.0 / (d1 + 0.2)).
      { unfold Rdiv. apply Rmult_lt_compat_l; [lra|].
        apply Rinv_lt_contravar; [|lra].
        apply Rmult_lt_0_compat; lra. }
      lra.
  - intros x y z Hfar. rewrite deformationFrame_single, deform_unfold.
    now rewrite Rgtb_true.
Qed.

Lemma horizontalDistance_unit_body (x : R) :
  0 <= x -> horizontalDistance x 0 unit_body = x.
Proof. intros Hx. cbn. sep_value x. reflexivity. Qed.

Lemma deformation_decreases_within_cutoff_witness :
  (exists h1 h2,
     deformationFrame [unit_body] [(1, 0, 0); (2, 0, 0)] =
       [(1, h1, 0); (2, h2, 0)] /\
     Rabs h2 < Rabs h1) /\
  (forall x y z, horizontalDistance x z unit_body > mass unit_body * 4 ->
     deformationFrame [unit_body] [(x, y, z)] = [(x, 0, z)]).
Proof.
  apply (deformation_decreases_within_cutoff unit_body 1 0 0 2 0 0).
  - cbn. lra.
  - rewrite !horizontalDistance_unit_body by lra. lra.
  - rewrite horizontalDistance_unit_body by lra. cbn. lra.
Defined.

(** C7 fails as stated: of two vertices 5 and 6 units from an object of mass
    1, both beyond its cutoff of 4, neither is displaced. *)
Lemma no_decrease_beyond_cutoff :
  0 < mass unit_body /\
  horizontalDistance 5 0 unit_body < horizontalDistance 6 0 unit_body /\
  deformationFrame [unit_body] [(5, 0, 0); (6, 0, 0)] = [(5, 0, 0); (6, 0, 0)].
Proof.
  rewrite !horizontalDistance_unit_body by lra. repeat split.
  - cbn. lra.
  - lra.
  - unfold deformationFrame, applyDeformation, resetPositions.
    cbn [map fold_left]. rewrite !deform_unfold.
    rewrite !horizontalDistance_unit_body by lra.
    now rewrite !Rgtb_true by (cbn; lra).
Qed.

(** *** The two older deformations *)

(** Under the Gaussian falloff the displacement by one object of positive
    mass decreases strictly with the horizontal distance, everywhere. *)
Lemma gaussian_strictly_decreasing (obj : SpaceTimeObject) (x1 z1 x2 z2 : R) :
  0 < mass obj ->
  horizontalDistance x1 z1 obj < horizontalDistance x2 z2 obj ->
  Rabs (gaussianHeight [obj] x2 z2) < Rabs (gaussianHeight [obj] x1 z1).
Proof.
  intros Hm. unfold gaussianHeight, distort, horizontalDistance. cbn [fold_left].
  destruct (position obj) as [[objX objY] objZ].
  set (d1 := sqrt _). set (d2 := sqrt _). intros Hlt.
  assert (H1 : 0 <= d1) by apply sqrt_pos.
  destruct (Req_dec_T (mass obj) 0) as [E|_]; [lra|].
  set (k := match type obj with BlackHole => 10 | Planet => 1 end).
  assert (Hk : 0 < k) by (unfold k; destruct (type obj); lra).
  assert (He : exp (- d2 * d2 * 0.3) < exp (- d1 * d1 * 0.3)).
  { apply exp_increasing. nra. }
  pose proof (exp_pos (- d2 * d2 * 0.3)) as P2.
  pose proof (exp_pos (- d1 * d1 * 0.3)) as P1.
  assert (Hmk : 0 < mass obj * k) by (apply Rmult_lt_0_compat; lra).
  rewrite !Rabs_left by nra. nra.
Qed.

(** Under the clamped inverse-square falloff of the canvas version the
    displacement is the same 50 at distances 1 and 2 from an object of
    mass 1. *)
Lemma updateGrid_clamped :
  updateGrid_displacement [(0, 0, 1)] 1 0 = JS.Fin 50 /\
  updateGrid_displacement [(0, 0, 1)] 2 0 = JS.Fin 50.
Proof.
  unfold updateGrid_displacement. cbn [fold_left]. split.
  - sep_value 1. cbn [JS.div].
    destruct (Req_dec_T (1 * 1) 0) as [E|_]; [lra|].
    cbn [JS.min JS.add]. f_equal. rewrite Rmin_right; lra.
  - sep_value 2. cbn [JS.div].
    destruct (Req_dec_T (2 * 2) 0) as [E|_]; [lra|].
    cbn [JS.min JS.add]. f_equal. rewrite Rmin_right; lra.
Qed.

(** *** Absorption in the canvas version *)

(** The canvas version has no cutoff: a black hole removes whatever its
    circle overlaps, and nothing else removes anything. *)
Lemma applyGravitationalForce_removed_spec (this otherObject : CanvasObject) :
  applyGravitationalForce_removed this otherObject = true <->
  canvas_type this = "blackhole"%string /\
  sqrt ((canvas_x otherObject - canvas_x this)
        * (canvas_x otherObject - canvas_x this)
        + (canvas_y otherObject - canvas_y this)
          * (canvas_y otherObject - canvas_y this))
    < canvas_radius this + canvas_radius otherObject.
Proof.
  unfold applyGravitationalForce_removed. cbv zeta.
  rewrite <- Rltb_spec. destruct (Rltb _ _).
  - destruct (String.eqb_spec (canvas_type this) "blackhole"); split;
      intros H; try discriminate; tauto.
  - split; [discriminate|]. intros [_ H]. discriminate.
Qed.

(** ** Division by a zero distance *)

Module JSFacts.

Lemma sqrt_fin (x : R) : 0 <= x -> JS.sqrt (JS.Fin x) = JS.Fin (sqrt x).
Proof. intros H. unfold JS.sqrt. now rewrite Rltb_false. Qed.

Lemma inf_times_zero (positive : bool) : JS.inf_times positive 0 = JS.NaN.
Proof. unfold JS.inf_times. now rewrite !Rltb_false by lra. Qed.

Lemma squares2_nonneg (a b : R) : 0 <= a * a + b * b.
Proof.
  pose proof (Rle_0_sqr a). pose proof (Rle_0_sqr b). unfold Rsqr in *. lra.
Qed.

Lemma squares3_nonneg (a b c : R) : 0 <= a * a + b * b + c * c.
Proof.
  pose proof (squares2_nonneg a b). pose proof (Rle_0_sqr c).
  unfold Rsqr in *. lra.
Qed.

(** On finite numbers, away from a zero distance, the formula over the
    extended numbers is the formula over the reals. *)
Lemma gravity_force_agrees (p : vec3) (other : SpaceTimeObject) :
  separation p other <> 0 ->
  JS.gravity_force (JS.of_vec3 p) (JS.of_vec3 (position other))
                   (JS.Fin (mass other)) =
  if Rgtb (separation p other) 10 then None
  else Some (JS.of_vec3 (gravity_force p other)).
Proof.
  unfold separation, gravity_force, JS.gravity_force, JS.of_vec3.
  destruct p as [[px py] pz], (position other) as [[ox oy] oz].
  cbn [JS.sub JS.opp JS.add JS.mul].
  replace (ox + - px) with (ox - px) by lra.
  replace (oy + - py) with (oy - py) by lra.
  replace (oz + - pz) with (oz - pz) by lra.
  set (e := (ox - px) * (ox - px) + (oy - py) * (oy - py) + (oz - pz) * (oz - pz)).
  intros Hd. rewrite sqrt_fin by apply squares3_nonneg.
  cbn [JS.gt]. destruct (Rgtb (sqrt e) 10); [reflexivity|].
  cbn [JS.mul JS.div].
  destruct (Req_dec_T (sqrt e * sqrt e) 0) as [E|_];
    [apply Rmult_integral in E; tauto|].
  destruct (Req_dec_T (sqrt e) 0) as [E|_]; [contradiction|].
  reflexivity.
Qed.

(** The deformation formula never divides by zero: on finite numbers its
    result is finite. *)
Lemma deformation_finite (x z objX objZ objMass : R) :
  match JS.deformation (JS.Fin x) (JS.Fin z) (JS.Fin objX) (JS.Fin objZ)
          (JS.Fin objMass) with
  | None => True
  | Some d => JS.finite d = true
  end.
Proof.
  unfold JS.deformation. cbn [JS.sub JS.opp JS.add JS.mul].
  rewrite sqrt_fin by apply squares2_nonneg.
  cbn [JS.gt JS.mul JS.add JS.div]. destruct (Rgtb _ _); [exact I|].
  match goal with |- context [sqrt ?e] => pose proof (sqrt_pos e) as Hs end.
  destruct (Req_dec_T _ 0) as [E|_]; [lra|reflexivity].
Qed.

(** The gravity formula has no such guard: for two objects at the same
    place the distance is zero, the pair is not skipped, and every component
    of the force is [NaN], whatever the mass. *)
Lemma gravity_force_coincident (px py pz m : R) :
  JS.gravity_force (JS.Fin px, JS.Fin py, JS.Fin pz)
                   (JS.Fin px, JS.Fin py, JS.Fin pz) (JS.Fin m) =
  Some (JS.NaN, JS.NaN, JS.NaN).
Proof.
  unfold JS.gravity_force. cbn [JS.sub JS.opp JS.add JS.mul].
  replace (px + - px) with 0 by lra.
  replace (py + - py) with 0 by lra.
  replace (pz + - pz) with 0 by lra.
  replace (0 * 0 + 0 * 0 + 0 * 0) with 0 by lra.
  rewrite sqrt_fin, sqrt_0 by lra.
  cbn [JS.gt]. rewrite Rgtb_false by lra.
  cbn [JS.mul JS.div].
  destruct (Req_dec_T 0 0) as [_|N]; [|contradiction].
  rewrite inf_times_zero. reflexivity.
Qed.

(** On finite numbers the deformation loop over the extended numbers is the
    loop over the reals. *)
Lemma deform_agrees (x z y : R) (obj : SpaceTimeObject) :
  JS.deform (JS.Fin x) (JS.Fin z) (JS.Fin y) (JS.of_object obj) =
  JS.Fin (deform x z y obj).
Proof.
  unfold JS.deform, JS.of_object, JS.of_vec3, JS.deformation, deform.
  destruct (position obj) as [[objX objY] objZ].
  cbn [JS.sub JS.opp JS.add JS.mul].
  change (x + - objX) with (x - objX). change (z + - objZ) with (z - objZ).
  rewrite sqrt_fin by apply squares2_nonneg.
  cbn [JS.gt JS.mul JS.add JS.div]. destruct (Rgtb _ _); [reflexivity|].
  match goal with |- context [sqrt ?e] => pose proof (sqrt_pos e) as Hs end.
  destruct (Req_dec_T _ 0) as [E|_]; [lra|]. reflexivity.
Qed.

Lemma height_agrees (objects : list SpaceTimeObject) (x z : R) :
  JS.height (map JS.of_object objects) (JS.Fin x) (JS.Fin z) =
  JS.Fin (fold_left (deform x z) objects 0).
Proof.
  unfold JS.height. generalize 0.
  induction objects as [|obj objects IH]; intros y; cbn [map fold_left];
    [reflexivity|].
  rewrite deform_agrees. apply IH.
Qed.

End JSFacts.

(** C8, evaluated on the code: the deformation divides by [distance + 0.2]
    and is finite for all finite inputs, but the gravity formula divides by
    the distance itself; for two objects at the same place the force
    computed for the velocity is [NaN] in every component. *)
Theorem gravity_divides_by_zero_distance :
  (forall x z objX objZ objMass,
     match JS.deformation (JS.Fin x) (JS.Fin z) (JS.Fin objX) (JS.Fin objZ)
             (JS.Fin objMass) with
     | None => True
     | Some d => JS.finite d = true
     end) /\
  JS.gravity_force (JS.Fin 0, JS.Fin 0, JS.Fin 0)
                   (JS.Fin 0, JS.Fin 0, JS.Fin 0) (JS.Fin 1.5) =
    Some (JS.NaN, JS.NaN, JS.NaN) /\
  JS.finite_vec (JS.NaN, JS.NaN, JS.NaN) = false.
Proof.
  split; [exact JSFacts.deformation_finite|].
  split; [apply JSFacts.gravity_force_coincident|reflexivity].
Qed.

(** ** The fabric is never raised *)

(** C10, as the code has it.  When every object has a finite position and a
    finite positive mass, no vertex is above zero after the deformation
    frame: the heights are reset to zero and every object either leaves a
    height as it is or lowers it; the height the frame computes over the
    numbers of JavaScript is then this finite height, and the comparison
    [height <= 0] holds of it. *)
Theorem fabric_never_raised (objects : list SpaceTimeObject)
    (positions : list vec3) :
  Forall (fun o => 0 < mass o) objects ->
  Forall (fun vertex => snd (fst vertex) <= 0)
         (deformationFrame objects positions) /\
  (forall x z y obj, In obj objects ->
     deform x z y obj = y \/ deform x z y obj < y) /\
  (forall x z, exists h,
     JS.height (map JS.of_object objects) (JS.Fin x) (JS.Fin z) = JS.Fin h /\
     h <= 0 /\
     JS.le (JS.height (map JS.of_object objects) (JS.Fin x) (JS.Fin z))
           (JS.Fin 0) = true).
Proof.
  intros Hm. split; [|split].
  - unfold deformationFrame, applyDeformation, resetPositions.
    rewrite map_map. apply Forall_map. apply Forall_forall.
    intros [[x y] z] _. cbn. now apply fold_deform_le.
  - intros x z y obj Hin. apply deform_lowers.
    rewrite Forall_forall in Hm. now apply Hm.
  - intros x z. exists (fold_left (deform x z) objects 0).
    pose proof (fold_deform_le x z objects Hm 0) as Hle.
    rewrite JSFacts.height_agrees. repeat split; [exact Hle|].
    cbn [JS.le]. now rewrite Rgtb_false.
Qed.

Lemma fabric_never_raised_witness :
  Forall (fun vertex => snd (fst vertex) <= 0)
         (deformationFrame [unit_body] [(1, 5, 0)]) /\
  (forall x z y obj, In obj [unit_body] ->
     deform x z y obj = y \/ deform x z y obj < y) /\
  (forall x z, exists h,
     JS.height (map JS.of_object [unit_body]) (JS.Fin x) (JS.Fin z) = JS.Fin h /\
     h <= 0 /\
     JS.le (JS.height (map JS.of_object [unit_body]) (JS.Fin x) (JS.Fin z))
           (JS.Fin 0) = true).
Proof.
  apply (fabric_never_raised [unit_body] [(1, 5, 0)]).
  repeat constructor. cbn. lra.
Defined.

(** C10 fails as stated.  Two objects of mass 1 at rest at the origin pull
    each other with a force that is [NaN] in every component, so the
    velocity of each becomes [NaN]; in the next frame line 129 makes its
    position [NaN], and the bounds test of line 182 never removes it.  Such
    an object has a positive mass, is not skipped by the test of line 83, its
    deformation is [NaN], and the height of the vertex at [(1, 0)] after the
    deformation frame is [NaN], which is not at most zero. *)
Lemma nan_position_height_not_bounded :
  JS.gravity_force (JS.Fin 0, JS.Fin 0, JS.Fin 0)
                   (JS.Fin 0, JS.Fin 0, JS.Fin 0) (JS.Fin 1) =
    Some (JS.NaN, JS.NaN, JS.NaN) /\
  JS.advance (JS.Fin 0, JS.Fin 0, JS.Fin 0) (JS.NaN, JS.NaN, JS.NaN) =
    (JS.NaN, JS.NaN, JS.NaN) /\
  JS.out_of_bounds (JS.NaN, JS.NaN, JS.NaN) = false /\
  JS.gt (JS.Fin 1) (JS.Fin 0) = true /\
  JS.deformation (JS.Fin 1) (JS.Fin 0) JS.NaN JS.NaN (JS.Fin 1) = Some JS.NaN /\
  JS.height [((JS.NaN, JS.NaN, JS.NaN), JS.Fin 1)] (JS.Fin 1) (JS.Fin 0)
    = JS.NaN /\
  JS.le (JS.height [((JS.NaN, JS.NaN, JS.NaN), JS.Fin 1)] (JS.Fin 1) (JS.Fin 0))
        (JS.Fin 0) = false.
Proof.
  split; [apply JSFacts.gravity_force_coincident|].
  repeat split. cbn [JS.gt]. apply Rgtb_true. lra.
Qed.

(** * More of the store *)

Section StoreLaws.
Context {A : Type} (idOf : A -> string).

Lemma removeObject_app (i : string) (l l' : list A) :
  removeObject idOf i (l ++ l') = removeObject idOf i l ++ removeObject idOf i l'.
Proof. apply filter_app. Qed.

Lemma removeObject_twice (i : string) (l : list A) :
  removeObject idOf i (removeObject idOf i l) = removeObject idOf i l.
Proof.
  unfold removeObject. induction l as [|o l IH]; [reflexivity|].
  cbn. destruct (negb (String.eqb (idOf o) i)) eqn:E; cbn; [|exact IH].
  rewrite E. f_equal. exact IH.
Qed.

Lemma removeObject_swap (i j : string) (l : list A) :
  removeObject idOf i (removeObject idOf j l) =
  removeObject idOf j (removeObject idOf i l).
Proof.
  unfold removeObject. induction l as [|o l IH]; [reflexivity|].
  cbn. destruct (negb (String.eqb (idOf o) j)) eqn:Ej,
                (negb (String.eqb (idOf o) i)) eqn:Ei; cbn;
    rewrite ?Ej, ?Ei; first [exact IH | f_equal; exact IH].
Qed.



End StoreLaws.

(** X1. Adding an object whose identifier is not in the store and removing
    that identifier again gives the store back as it was. *)
Theorem add_then_remove (objects : list SpaceTimeObject)
    (object : SpaceTimeObject) :
  ~ In (id object) (map id objects) ->
  removeObject id (id object) (addObject object objects) = objects.
Proof.
  intros H. unfold addObject. rewrite removeObject_app.
  rewrite removeObject_absent by assumption.
  cbn. rewrite String.eqb_refl. cbn. apply app_nil_r.
Qed.

Lemma add_then_remove_witness :
  removeObject id (id planet_b) (addObject planet_b [planet_a]) = [planet_a].
Proof.
  apply (add_then_remove [planet_a] planet_b).
  cbn. intros [H|[]]. discriminate.
Defined.

(** X2. Removing leaves no object with the identifier and keeps every other
    object; removing the same identifier again changes nothing, and two
    removals can be done in either order. *)
Theorem removeObject_laws (objects : list SpaceTimeObject) (i j : string) :
  ~ In i (map id (removeObject id i objects)) /\
  (forall o, id o <> i -> (In o (removeObject id i objects) <-> In o objects)) /\
  removeObject id i (removeObject id i objects) = removeObject id i objects /\
  removeObject id i (removeObject id j objects) =
    removeObject id j (removeObject id i objects).
Proof.
  repeat split.
  - rewrite in_map_iff. intros (o & E & Hin).
    apply removeObject_In in Hin. tauto.
  - intros Hin. now apply removeObject_In in Hin.
  - intros Hin. apply removeObject_In. tauto.
  - apply removeObject_twice.
  - apply removeObject_swap.
Qed.


(** * More of the physics frame *)

(** ** One object alone *)

(** X4. A store with one object: after the frame the object has moved by its
    velocity times 0.01 and is otherwise unchanged, unless the position it
    had at the start was out of bounds, in which case the store is empty. *)
Theorem physicsFrame_single (o : SpaceTimeObject) :
  physicsFrame [o] = if out_of_bounds (position o) then [] else [moved o].
Proof.
  destruct (frame_before_step_at 0 [o] [o] [] o (moved o) [] Continue
              (out_of_bounds (position o)) eq_refl eq_refl eq_refl eq_refl eq_refl)
    as (Hu & _ & Hr).
  rewrite physicsFrame_filter by (cbn; repeat constructor; cbn; tauto).
  unfold physicsLoop. cbn [List.length]. rewrite Hu, Hr.
  destruct (out_of_bounds (position o)); cbn; [|reflexivity].
  now rewrite String.eqb_refl.
Qed.

(** ** What the frame keeps *)

Lemma frame_before_store_length (n : nat) (objects : list SpaceTimeObject) :
  List.length (storeObjects (frame_before n objects)) = List.length objects.
Proof.
  induction n as [|n IH].
  - cbn. apply length_seq.
  - rewrite frame_before_S.
    destruct (nth_error (updatedObjects (frame_before n objects)) n) as [obj|] eqn:Hn.
    + destruct (frame_body_Some _ n obj Hn)
        as (obj' & rm' & f & _ & _ & _ & _ & _ & Hst & _).
      rewrite Hst. unfold updateObject. now rewrite length_map.
    + now rewrite frame_body_None.
Qed.

Lemma resolve_length (heap : list SpaceTimeObject) (refs : list nat) :
  (List.length (resolve heap refs) <= List.length refs)%nat.
Proof.
  unfold resolve. induction refs as [|r refs IH]; cbn; [lia|].
  rewrite length_app. destruct (nth_error heap r); cbn; lia.
Qed.

Lemma removeAll_length (heap : list SpaceTimeObject) (ids : list string) :
  forall refs, (List.length (removeAll heap ids refs) <= List.length refs)%nat.
Proof.
  unfold removeAll. induction ids as [|i ids IH]; intros refs; cbn; [lia|].
  etransitivity; [apply IH|]. apply filter_length_le.
Qed.

(** X5. The frame creates no object and rewrites no identity: the store
    never grows, and every object in it after the frame has the identifier,
    type, mass and radius of an object that was in it before. *)
Theorem physicsFrame_keeps_identity (objects : list SpaceTimeObject) :
  (List.length (physicsFrame objects) <= List.length objects)%nat /\
  (forall o', In o' (physicsFrame objects) ->
     exists o, In o objects /\ id o' = id o /\ type o' = type o /\
               mass o' = mass o /\ radius o' = radius o).
Proof.
  split.
  - unfold physicsFrame. cbv zeta.
    etransitivity; [apply resolve_length|].
    etransitivity; [apply removeAll_length|].
    unfold physicsLoop. now rewrite frame_before_store_length.
  - intros o' Hin. apply physicsFrame_In in Hin.
    destruct Hin as (r & _ & Hr & _).
    assert (Hlen : (r < List.length objects)%nat).
    { rewrite <- (frame_before_length (List.length objects) objects).
      apply nth_error_Some. unfold physicsLoop in Hr. congruence. }
    destruct (nth_error objects r) as [o|] eqn:Ho;
      [|apply nth_error_None in Ho; lia].
    exists o. split; [eapply nth_error_In; eauto|].
    pose proof (frame_statics_nth _ r objects o o' Ho Hr) as Hs.
    unfold statics in Hs. injection Hs as -> -> -> ->. auto.
Qed.

Lemma filter_keeps_ids_distinct (keep : SpaceTimeObject -> bool)
    (heap : list SpaceTimeObject) :
  NoDup (map id heap) -> NoDup (map id (filter keep heap)).
Proof.
  induction heap as [|o heap IH]; cbn; intros Hnd; [constructor|].
  apply NoDup_cons_iff in Hnd. destruct Hnd as [Hfresh Hrest].
  destruct (keep o); cbn; [|now apply IH].
  apply NoDup_cons; [|now apply IH].
  intros Hin. apply Hfresh.
  apply in_map_iff in Hin. destruct Hin as (o' & Hid & Ho').
  apply in_map_iff. exists o'. split; [exact Hid|].
  apply filter_In in Ho'. tauto.
Qed.

(** X6. Pairwise different identifiers stay pairwise different. *)
Theorem physicsFrame_keeps_ids_distinct (objects : list SpaceTimeObject) :
  NoDup (map id objects) -> NoDup (map id (physicsFrame objects)).
Proof.
  intros Hnd. rewrite physicsFrame_filter by assumption.
  apply filter_keeps_ids_distinct.
  unfold physicsLoop.
  rewrite (statics_ids _ objects) by apply frame_before_statics.
  assumption.
Qed.

Lemma physicsFrame_keeps_ids_distinct_witness :
  NoDup (map id (physicsFrame two_planets)).
Proof.
  apply (physicsFrame_keeps_ids_distinct two_planets). distinct_ids.
Defined.

(** ** Objects out of reach of each other *)

Lemma gravity_loop_all_far (i : nat) (p v : vec3)
    (others : list SpaceTimeObject) :
  forall (j : nat) (obj : SpaceTimeObject) (rm : list string),
  (forall m other, nth_error others m = Some other -> i <> (j + m)%nat ->
                   separation p other > 10) ->
  gravity_loop i p v j others obj rm = (obj, rm, Continue).
Proof.
  induction others as [|other rest IH]; intros j obj rm Hfar; [reflexivity|].
  cbn. destruct (Nat.eqb_spec i j) as [E|Hne].
  - apply IH. intros m o Ho Hm. apply (Hfar (S m) o Ho). lia.
  - rewrite interact_far by (apply (Hfar 0%nat other eq_refl); lia).
    apply IH. intros m o Ho Hm. apply (Hfar (S m) o Ho). lia.
Qed.

(** X7. An object that, when its turn comes, is farther than 10 from every
    other object leaves the frame with the velocity it had: it has only
    moved by that velocity times 0.01. *)
Theorem isolated_object_moves_freely (objects : list SpaceTimeObject)
    (i : nat) (o : SpaceTimeObject) :
  nth_error objects i = Some o ->
  (forall j other, j <> i ->
     nth_error (updatedObjects (frame_before i objects)) j = Some other ->
     separation (position o) other > 10) ->
  nth_error (updatedObjects (physicsLoop objects)) i = Some (moved o) /\
  absorbed i objects = false.
Proof.
  intros Ho Hfar.
  assert (Hi : (i < List.length objects)%nat)
    by (apply nth_error_Some; congruence).
  destruct (frame_before_step i objects o (moved o) [] Continue Ho)
    as (Hu & Ha & _).
  { apply gravity_loop_all_far. intros m other Hm Him.
    apply (Hfar m other); [cbn in Him; lia|assumption]. }
  split; [|exact Ha].
  unfold physicsLoop. rewrite (frame_before_earlier (S i)) by lia.
  rewrite Hu. apply assign_same. now rewrite frame_before_length.
Qed.

Lemma isolated_object_moves_freely_witness :
  nth_error (updatedObjects (physicsLoop far_pair)) 0 = Some (moved big_planet) /\
  absorbed 0 far_pair = false.
Proof.
  apply (isolated_object_moves_freely far_pair 0 big_planet).
  - reflexivity.
  - intros [|[|j]] other Hj Ho; [contradiction| |destruct j; discriminate].
    injection Ho as <-. rewrite separation_far_pair. lra.
Defined.

(** ** Why an object is removed *)

Lemma gravity_loop_break_cause (i : nat) (p v : vec3)
    (others : list SpaceTimeObject) :
  forall (j : nat) (obj obj' : SpaceTimeObject) (rm rm' : list string),
  gravity_loop i p v j others obj rm = (obj', rm', Break) ->
  exists m other,
    nth_error others m = Some other /\ i <> (j + m)%nat /\
    type other = BlackHole /\ separation p other <= 10 /\
    separation p other < radius obj + radius other.
Proof.
  induction others as [|other rest IH]; intros j obj obj' rm rm' Hg;
    [discriminate|].
  cbn in Hg. destruct (Nat.eqb_spec i j) as [E|Hne].
  - destruct (IH _ _ _ _ _ Hg) as (m & o & Hm & Him & Hc).
    exists (S m), o. split; [assumption|]. split; [lia|assumption].
  - pose proof (interact_frame p v obj other rm) as Hf.
    destruct (interact p v obj other rm) as [[obj1 rm1] [|]] eqn:Hi.
    + destruct Hf as (Hs & _ & _). apply statics_radius in Hs.
      destruct (IH _ _ _ _ _ Hg) as (m & o & Hm & Him & Ht & Hc & Hr).
      exists (S m), o. rewrite <- Hs. repeat split; auto. lia.
    + exists 0%nat, other. split; [reflexivity|]. split; [lia|].
      unfold interact in Hi.
      destruct (Rgtb (separation p other) 10) eqn:Hgt; [discriminate|].
      cbv zeta in Hi. cbn [radius set_velocity] in Hi.
      destruct (Rltb (separation p other) (radius obj + radius other)) eqn:Hlt;
        [|discriminate].
      destruct (type other) eqn:Ht.
      * destruct (type (set_velocity obj _)); discriminate.
      * split; [reflexivity|]. split.
        -- destruct (Rle_or_lt (separation p other) 10) as [H|H]; [exact H|].
           apply Rgtb_true in H. congruence.
        -- now apply Rltb_spec.
Qed.

(** X8. The frame removes nothing without a cause: with pairwise different
    identifiers, an object that is in bounds at the start of the frame and,
    when its turn comes, does not overlap any black hole within the cutoff
    is still in the store after the frame. *)
Theorem object_survives_without_cause (objects : list SpaceTimeObject)
    (i : nat) (o : SpaceTimeObject) :
  NoDup (map id objects) ->
  nth_error objects i = Some o ->
  out_of_bounds (position o) = false ->
  (forall j other, j <> i ->
     nth_error (updatedObjects (frame_before i objects)) j = Some other ->
     type other = BlackHole ->
     separation (position o) other <= 10 ->
     radius o + radius other <= separation (position o) other) ->
  exists o', In o' (physicsFrame objects) /\ id o' = id o /\
             position o' = advance (position o) (velocity o).
Proof.
  intros Hnd Ho Hb Hfree.
  assert (Ha : absorbed i objects = false).
  { unfold absorbed. rewrite frame_before_later, Ho by lia.
    destruct (gravity_loop _ _ _ _ _ _ _) as [[o1 r1] [|]] eqn:Hg;
      [reflexivity|exfalso].
    destruct (gravity_loop_break_cause _ _ _ _ _ _ _ _ _ Hg)
      as (m & other & Hm & Him & Ht & Hc & Hr).
    cbn [radius set_position] in Hr.
    assert (Hmi : m <> i) by (cbn in Him; lia).
    pose proof (Hfree m other Hmi Hm Ht Hc). lra. }
  destruct (proj2 (survives_iff objects i o Hnd Ho) (conj Hb Ha))
    as (o' & Hin & Hid).
  exists o'. repeat split; try assumption.
  pose proof Hin as Hin'. apply physicsFrame_In in Hin'.
  destruct Hin' as (r & _ & Hr & _).
  assert (Hlen : (r < List.length objects)%nat).
  { rewrite <- (frame_before_length (List.length objects) objects).
    apply nth_error_Some. unfold physicsLoop in Hr. congruence. }
  destruct (nth_error objects r) as [o0|] eqn:Ho0;
    [|apply nth_error_None in Ho0; lia].
  assert (id o0 = id o).
  { rewrite <- Hid. symmetry. apply statics_id.
    exact (frame_statics_nth _ r objects o0 o' Ho0 Hr). }
  assert (r = i).
  { apply (proj1 (NoDup_nth_error (map id objects)) Hnd).
    - now rewrite length_map.
    - rewrite !nth_error_map, Ho0, Ho. cbn. congruence. }
  subst r. rewrite Ho in Ho0. injection Ho0 as <-.
  pose proof (physicsLoop_positions objects) as Hp.
  apply (f_equal (fun l => nth_error l i)) in Hp.
  rewrite !nth_error_map, Hr, Ho in Hp. cbn in Hp. congruence.
Qed.

Lemma object_survives_without_cause_witness :
  exists o', In o' (physicsFrame two_planets) /\ id o' = id planet_a /\
             position o' = advance (position planet_a) (velocity planet_a).
Proof.
  apply (object_survives_without_cause two_planets 0 planet_a).
  - distinct_ids.
  - reflexivity.
  - in_bounds.
  - intros [|[|j]] other Hj Ho Ht; [contradiction| |destruct j; discriminate].
    injection Ho as <-. discriminate.
Defined.

(** ** The two formulas *)

Lemma decimal_tenth : 0.1 = 1 / 10.
Proof. lra. Qed.

(** X9. The pull is an inverse-square attraction: for an object of positive
    mass at a distance [d] that is not zero, the vector added to the
    velocity is a positive multiple of the vector from [obj] to [other], and
    its length is [0.1 * mass / d^2]. *)
Theorem gravity_force_inverse_square (px py pz ox oy oz : R)
    (other : SpaceTimeObject) :
  position other = (ox, oy, oz) ->
  separation (px, py, pz) other <> 0 ->
  0 < mass other ->
  exists k, 0 < k /\
    gravity_force (px, py, pz) other =
      (k * (ox - px), k * (oy - py), k * (oz - pz)) /\
    k * separation (px, py, pz) other =
      0.1 * mass other / (separation (px, py, pz) other
                          * separation (px, py, pz) other).
Proof.
  unfold separation, gravity_force. intros -> Hd Hm.
  set (d := sqrt _) in *.
  assert (Hpos : 0 < d) by (pose proof (sqrt_pos ((ox - px) * (ox - px) + (oy - py) * (oy - py) + (oz - pz) * (oz - pz))); fold d in H; lra).
  exists (mass other * 0.1 / (d * d) / d). repeat split.
  - apply Rdiv_lt_0_compat; [|assumption].
    apply Rdiv_lt_0_compat; [lra|]. now apply Rmult_lt_0_compat.
  - rewrite decimal_tenth. f_equal; [f_equal|]; field; lra.
  - rewrite decimal_tenth. field. lra.
Qed.

Lemma gravity_force_inverse_square_witness :
  exists k, 0 < k /\
    gravity_force (0, 0, 0) body_b = (k * (3 - 0), k * (0 - 0), k * (0 - 0)) /\
    k * separation (0, 0, 0) body_b =
      0.1 * mass body_b / (separation (0, 0, 0) body_b
                           * separation (0, 0, 0) body_b).
Proof.
  apply (gravity_force_inverse_square 0 0 0 3 0 0 body_b).
  - reflexivity.
  - cbn. sep_value 3. lra.
  - cbn. lra.
Defined.

(** X10. The collision formula itself is that of an elastic collision: if
    both objects were given their new velocities from the same velocities
    before the collision, total momentum and kinetic energy would be what
    they were; and between objects of the same mass it hands [obj] the
    velocity of [other]. *)
Theorem elastic_formula_conserves (a b : SpaceTimeObject) :
  mass a + mass b <> 0 ->
  total_momentum [set_velocity a (elastic a b); set_velocity b (elastic b a)]
    = total_momentum [a; b] /\
  kinetic_energy2 [set_velocity a (elastic a b); set_velocity b (elastic b a)]
    = kinetic_energy2 [a; b] /\
  (mass a = mass b -> elastic a b = velocity b).
Proof.
  intros Hm. unfold total_momentum, kinetic_energy2, elastic.
  cbn [fold_left velocity mass set_velocity].
  destruct (velocity a) as [[v1x v1y] v1z], (velocity b) as [[v2x v2y] v2z].
  assert (Hm' : mass b + mass a <> 0) by lra.
  repeat split.
  - f_equal; [f_equal|]; field; assumption.
  - field; repeat split; assumption.
  - intros E. rewrite <- E in *.
    f_equal; [f_equal|]; field; lra.
Qed.

Lemma elastic_formula_conserves_witness :
  total_momentum [set_velocity planet_a (elastic planet_a planet_b);
                  set_velocity planet_b (elastic planet_b planet_a)]
    = total_momentum [planet_a; planet_b] /\
  kinetic_energy2 [set_velocity planet_a (elastic planet_a planet_b);
                   set_velocity planet_b (elastic planet_b planet_a)]
    = kinetic_energy2 [planet_a; planet_b] /\
  (mass planet_a = mass planet_b -> elastic planet_a planet_b = velocity planet_b).
Proof.
  apply (elastic_formula_conserves planet_a planet_b). cbn. lra.
Defined.

(** ** Positions that are not numbers *)

Lemma Rgtb_Rltb (x y : R) : Rgtb x y = Rltb y x.
Proof.
  unfold Rgtb, Rltb. destruct (Rgt_dec x y), (Rlt_dec y x);
    try reflexivity; unfold Rgt in *; contradiction.
Qed.

(** X12. On finite numbers the bounds test over the extended numbers is the
    one over the reals.  An object whose velocity is [NaN] gets a [NaN]
    position from the next frame, and the bounds test never marks a [NaN]
    position: every comparison with [NaN] is false. *)
Theorem nan_position_is_never_out_of_bounds :
  (forall p, JS.out_of_bounds (JS.of_vec3 p) = out_of_bounds p) /\
  (forall p, JS.advance (JS.of_vec3 p) (JS.NaN, JS.NaN, JS.NaN)
             = (JS.NaN, JS.NaN, JS.NaN)) /\
  (forall p v, JS.advance (JS.of_vec3 p) (JS.of_vec3 v)
               = JS.of_vec3 (advance p v)) /\
  JS.out_of_bounds (JS.NaN, JS.NaN, JS.NaN) = false.
Proof.
  repeat split.
  - intros [[px py] pz]. unfold JS.out_of_bounds, out_of_bounds, JS.lt.
    cbn [JS.of_vec3 JS.abs JS.gt]. now rewrite (Rgtb_Rltb (-10) py).
  - intros [[px py] pz]. reflexivity.
  - intros [[px py] pz] [[vx vy] vz]. reflexivity.
Qed.

(** * More of the fabric deformation *)

Lemma deformationFrame_heights (objects : list SpaceTimeObject)
    (positions : list vec3) :
  deformationFrame objects positions =
  map (fun vertex =>
         (fst (fst vertex),
          fold_left (deform (fst (fst vertex)) (snd vertex)) objects 0,
          snd vertex))
      positions.
Proof.
  unfold deformationFrame, applyDeformation, resetPositions.
  rewrite map_map. apply map_ext. intros [[x y] z]. reflexivity.
Qed.

(** X13. The deformation frame recomputes the heights from nothing: it keeps
    the [x] and [z] of every vertex, its result does not depend on the
    heights the array held, so running it again changes nothing, and with no
    objects every height is zero. *)
Theorem deformationFrame_recomputes (objects : list SpaceTimeObject)
    (positions : list vec3) :
  map (fun v => (fst (fst v), snd v)) (deformationFrame objects positions) =
    map (fun v => (fst (fst v), snd v)) positions /\
  (forall positions',
     map (fun v => (fst (fst v), snd v)) positions' =
       map (fun v => (fst (fst v), snd v)) positions ->
     deformationFrame objects positions' = deformationFrame objects positions) /\
  deformationFrame objects (deformationFrame objects positions) =
    deformationFrame objects positions /\
  deformationFrame [] positions = resetPositions positions.
Proof.
  assert (Hxz : forall l,
    map (fun v : vec3 => (fst (fst v), snd v)) (deformationFrame objects l) =
    map (fun v : vec3 => (fst (fst v), snd v)) l).
  { intros l. rewrite deformationFrame_heights, map_map. reflexivity. }
  assert (Hdep : forall l l',
    map (fun v : vec3 => (fst (fst v), snd v)) l' =
    map (fun v : vec3 => (fst (fst v), snd v)) l ->
    deformationFrame objects l' = deformationFrame objects l).
  { intros l l' H.
    assert (Hform : forall l0,
      deformationFrame objects l0 =
      map (fun xz : R * R =>
             (fst xz, fold_left (deform (fst xz) (snd xz)) objects 0, snd xz))
          (map (fun v : vec3 => (fst (fst v), snd v)) l0)).
    { intros l0. rewrite deformationFrame_heights, map_map. reflexivity. }
    now rewrite (Hform l'), (Hform l), H. }
  repeat split.
  - apply Hxz.
  - intros l' H. now apply Hdep.
  - apply Hdep, Hxz.
  - unfold deformationFrame, applyDeformation.
    rewrite <- (map_id (resetPositions positions)) at 2.
    apply map_ext. intros [[x y] z]. reflexivity.
Qed.

(** The amount one object takes off a height does not depend on the height. *)
Lemma deform_shift (x z y : R) (obj : SpaceTimeObject) :
  deform x z y obj = y + deform x z 0 obj.
Proof.
  rewrite !deform_unfold. destruct (Rgtb _ _); lra.
Qed.

Lemma fold_deform_sum (x z : R) (objects : list SpaceTimeObject) :
  forall y, fold_left (deform x z) objects y =
            y + fold_right Rplus 0 (map (deform x z 0) objects).
Proof.
  induction objects as [|obj objects IH]; intros y; cbn; [lra|].
  rewrite IH, (deform_shift x z y obj). lra.
Qed.

Lemma sum_permutation (l l' : list R) :
  Permutation l l' -> fold_right Rplus 0 l = fold_right Rplus 0 l'.
Proof.
  induction 1; cbn; lra.
Qed.

(** X14. In real arithmetic the dents of the objects add up: the height
    under two groups of objects is the sum of the heights under each group,
    and the order of the objects in the store does not matter. *)
Theorem deformation_superposes (objects objects' : list SpaceTimeObject)
    (positions : list vec3) :
  (forall x z,
     fold_left (deform x z) (objects ++ objects') 0 =
     fold_left (deform x z) objects 0 + fold_left (deform x z) objects' 0) /\
  (Permutation objects objects' ->
   deformationFrame objects positions = deformationFrame objects' positions).
Proof.
  split.
  - intros x z. rewrite !fold_deform_sum, map_app, fold_right_app.
    induction (map (deform x z 0) objects) as [|a l IH]; cbn; lra.
  - intros Hp. rewrite !deformationFrame_heights. apply map_ext.
    intros v. rewrite !fold_deform_sum.
    rewrite (sum_permutation _ _ (Permutation_map _ Hp)). reflexivity.
Qed.

(** The dent of one object is at most ten times its mass deep. *)
Lemma deform_depth (x z y : R) (obj : SpaceTimeObject) :
  0 <= mass obj -> y - 10 * mass obj <= deform x z y obj <= y.
Proof.
  intros Hm. rewrite deform_unfold.
  pose proof (horizontalDistance_nonneg x z obj) as Hd.
  destruct (Rgtb _ _); [lra|].
  set (d := horizontalDistance x z obj) in *.
  assert (H1 : 0 <= mass obj * 2.0 / (d + 0.2)).
  { apply Rmult_le_pos; [lra|]. apply Rlt_le, Rinv_0_lt_compat. lra. }
  assert (H2 : mass obj * 2.0 / (d + 0.2) <= 10 * mass obj).
  { apply Rmult_le_reg_r with (d + 0.2); [lra|].
    unfold Rdiv. rewrite Rmult_assoc, Rinv_l by lra. nra. }
  lra.
Qed.

Lemma fold_deform_depth (x z : R) (objects : list SpaceTimeObject) :
  Forall (fun o => 0 <= mass o) objects ->
  forall y, y - 10 * fold_right Rplus 0 (map mass objects)
              <= fold_left (deform x z) objects y <= y.
Proof.
  induction 1 as [|obj objects Hobj _ IH]; intros y; cbn; [lra|].
  specialize (IH (deform x z y obj)).
  pose proof (deform_depth x z y obj Hobj). lra.
Qed.

(** X15. In exact arithmetic the fabric has no singularity: when every
    object has a finite position and a finite mass that is not negative,
    every height after the deformation frame lies between minus ten times
    the sum of the masses and zero, however near to a vertex the objects
    are; the height the frame computes over the numbers of JavaScript is
    then finite and within these bounds. *)
Theorem deformation_depth_bounded (objects : list SpaceTimeObject)
    (positions : list vec3) :
  Forall (fun o => 0 <= mass o) objects ->
  Forall (fun vertex =>
            - (10 * fold_right Rplus 0 (map mass objects))
              <= snd (fst vertex) <= 0)
         (deformationFrame objects positions) /\
  (forall x z, exists h,
     JS.height (map JS.of_object objects) (JS.Fin x) (JS.Fin z) = JS.Fin h /\
     - (10 * fold_right Rplus 0 (map mass objects)) <= h <= 0).
Proof.
  intros Hm. split.
  - rewrite deformationFrame_heights. apply Forall_map.
    apply Forall_forall. intros [[x y] z] _. cbn [fst snd].
    pose proof (fold_deform_depth x z objects Hm 0). lra.
  - intros x z. exists (fold_left (deform x z) objects 0).
    split; [apply JSFacts.height_agrees|].
    pose proof (fold_deform_depth x z objects Hm 0). lra.
Qed.

Lemma deformation_depth_bounded_witness :
  Forall (fun vertex =>
            - (10 * fold_right Rplus 0 (map mass [unit_body]))
              <= snd (fst vertex) <= 0)
         (deformationFrame [unit_body] [(0, 5, 0)]) /\
  (forall x z, exists h,
     JS.height (map JS.of_object [unit_body]) (JS.Fin x) (JS.Fin z) = JS.Fin h /\
     - (10 * fold_right Rplus 0 (map mass [unit_body])) <= h <= 0).
Proof.
  apply (deformation_depth_bounded [unit_body] [(0, 5, 0)]).
  repeat constructor. cbn. lra.
Defined.

(** X16. More mass, deeper and wider dent: of two objects at the same place
    the one with the larger mass lowers every vertex at least as much. *)
Theorem deformation_grows_with_mass (light heavy : SpaceTimeObject)
    (x z y : R) :
  position light = position heavy ->
  mass light <= mass heavy ->
  deform x z y heavy <= deform x z y light.
Proof.
  intros Hp Hm. rewrite !deform_unfold.
  assert (E : horizontalDistance x z light = horizontalDistance x z heavy)
    by (unfold horizontalDistance; now rewrite Hp).
  rewrite E. pose proof (horizontalDistance_nonneg x z heavy) as Hd.
  set (d := horizontalDistance x z heavy) in *.
  assert (Hinv : 0 < / (d + 0.2)) by (apply Rinv_0_lt_compat; lra).
  destruct (Rgtb d (mass heavy * 4)) eqn:Hh.
  - apply Rgtb_spec in Hh. rewrite Rgtb_true by lra. lra.
  - assert (Hle : d <= mass heavy * 4).
    { destruct (Rle_or_lt d (mass heavy * 4)) as [H|H]; [exact H|].
      apply Rgtb_true in H. congruence. }
    unfold Rdiv. destruct (Rgtb d (mass light * 4)); nra.
Qed.

Lemma deformation_grows_with_mass_witness :
  deform 1 0 0 (mkObject "b" Planet (0, 0, 0) (0, 0, 0) 2 0.3)
    <= deform 1 0 0 unit_body.
Proof.
  apply (deformation_grows_with_mass unit_body
           (mkObject "b" Planet (0, 0, 0) (0, 0, 0) 2 0.3) 1 0 0).
  - reflexivity.
  - cbn. lra.
Defined.

(** * The older component *)

(** ** The Gaussian deformation *)

Lemma distort_unfold (x z newY : R) (obj : SpaceTimeObject) :
  distort x z newY obj =
  newY + - (if Req_dec_T (mass obj) 0 then 1 else mass obj)
         * match type obj with BlackHole => 10 | Planet => 1 end
         * exp (- horizontalDistance x z obj * horizontalDistance x z obj * 0.3).
Proof.
  unfold distort, horizontalDistance.
  destruct (position obj) as [[objX objY] objZ]. reflexivity.
Qed.

(** X11. Under the Gaussian falloff one object of positive mass lowers
    every point of the grid, by at most ten times its mass, and strictly
    less the farther the point is from it, at every distance. *)
Theorem gaussian_dent (obj : SpaceTimeObject) (x1 z1 x2 z2 : R) :
  0 < mass obj ->
  horizontalDistance x1 z1 obj < horizontalDistance x2 z2 obj ->
  - (10 * mass obj) <= gaussianHeight [obj] x1 z1 /\
  gaussianHeight [obj] x1 z1 < gaussianHeight [obj] x2 z2 /\
  gaussianHeight [obj] x2 z2 < 0.
Proof.
  intros Hm Hlt. unfold gaussianHeight. cbn [fold_left].
  rewrite !distort_unfold.
  pose proof (horizontalDistance_nonneg x1 z1 obj) as H1.
  set (d1 := horizontalDistance x1 z1 obj) in *.
  set (d2 := horizontalDistance x2 z2 obj) in *.
  destruct (Req_dec_T (mass obj) 0) as [E|_]; [lra|].
  set (k := match type obj with BlackHole => 10 | Planet => 1 end).
  assert (Hk : 0 < k <= 10) by (unfold k; destruct (type obj); lra).
  assert (He : exp (- d2 * d2 * 0.3) < exp (- d1 * d1 * 0.3))
    by (apply exp_increasing; nra).
  assert (H0 : exp (- d1 * d1 * 0.3) <= 1).
  { rewrite <- exp_0. destruct (Req_dec d1 0) as [->|N].
    - right. f_equal. lra.
    - left. apply exp_increasing. nra. }
  pose proof (exp_pos (- d2 * d2 * 0.3)) as P2.
  pose proof (exp_pos (- d1 * d1 * 0.3)) as P1.
  assert (Hmk : 0 < mass obj * k) by (apply Rmult_lt_0_compat; lra).
  assert (Hmk' : mass obj * k <= 10 * mass obj) by nra.
  repeat split; nra.
Qed.

Lemma gaussian_dent_witness :
  - (10 * mass unit_body) <= gaussianHeight [unit_body] 1 0 /\
  gaussianHeight [unit_body] 1 0 < gaussianHeight [unit_body] 2 0 /\
  gaussianHeight [unit_body] 2 0 < 0.
Proof.
  apply (gaussian_dent unit_body 1 0 2 0).
  - cbn. lra.
  - rewrite !horizontalDistance_unit_body by lra. lra.
Defined.

(** X17. A black hole dents the grid ten times as deep as a planet of the
    same mass at the same place. *)
Theorem gaussian_black_hole_ten_times (planet hole : SpaceTimeObject)
    (x z : R) :
  type planet = Planet -> type hole = BlackHole ->
  position planet = position hole -> mass planet = mass hole ->
  gaussianHeight [hole] x z = 10 * gaussianHeight [planet] x z.
Proof.
  intros Hp Hh Hpos Hm. unfold gaussianHeight. cbn [fold_left].
  rewrite !distort_unfold, Hp, Hh, Hm.
  assert (E : horizontalDistance x z planet = horizontalDistance x z hole)
    by (unfold horizontalDistance; now rewrite Hpos).
  rewrite E. lra.
Qed.

Lemma gaussian_black_hole_ten_times_witness :
  gaussianHeight [hole_a] 1 0 = 10 * gaussianHeight [set_velocity (mkObject "p" Planet (0, 0, 0) (0, 0, 0) 3 2) (0, 0, 0)] 1 0.
Proof.
  apply (gaussian_black_hole_ten_times
           (set_velocity (mkObject "p" Planet (0, 0, 0) (0, 0, 0) 3 2) (0, 0, 0))
           hole_a 1 0); reflexivity.
Defined.

(** X18. [obj.mass || 1]: an object of mass zero dents the grid like an
    object of mass one. *)
Theorem gaussian_zero_mass_counts_as_one (massless unit : SpaceTimeObject)
    (x z newY : R) :
  mass massless = 0 -> mass unit = 1 ->
  type massless = type unit -> position massless = position unit ->
  distort x z newY massless = distort x z newY unit.
Proof.
  intros H0 H1 Ht Hpos. rewrite !distort_unfold, H0, H1, Ht.
  assert (E : horizontalDistance x z massless = horizontalDistance x z unit)
    by (unfold horizontalDistance; now rewrite Hpos).
  rewrite E.
  destruct (Req_dec_T 0 0) as [_|N]; [|contradiction].
  destruct (Req_dec_T 1 0) as [N|_]; [lra|]. reflexivity.
Qed.

Lemma gaussian_zero_mass_counts_as_one_witness :
  distort 1 0 0 (mkObject "z" Planet (0, 0, 0) (0, 0, 0) 0 0.3)
  = distort 1 0 0 unit_body.
Proof.
  apply (gaussian_zero_mass_counts_as_one
           (mkObject "z" Planet (0, 0, 0) (0, 0, 0) 0 0.3) unit_body 1 0 0);
    reflexivity.
Defined.




(** ** The height of the plane under an object *)

Lemma getPlaneY_step_Some (x z c y : R) (v : vec3) :
  getPlaneY_step x z (Some c, y) v =
  if Rltb (distSq x z v) c then (Some (distSq x z v), snd (fst v))
  else (Some c, y).
Proof. destruct v as [[vx vy] vz]. reflexivity. Qed.

Lemma getPlaneY_step_None (x z y : R) (v : vec3) :
  getPlaneY_step x z (None, y) v = (Some (distSq x z v), snd (fst v)).
Proof. destruct v as [[vx vy] vz]. reflexivity. Qed.

Lemma getPlaneY_fold (x z : R) (arr : list vec3) :
  forall (c y : R),
  exists c',
    fst (fold_left (getPlaneY_step x z) arr (Some c, y)) = Some c' /\
    c' <= c /\
    (forall u, In u arr -> c' <= distSq x z u) /\
    ((c' = c /\ snd (fold_left (getPlaneY_step x z) arr (Some c, y)) = y) \/
     exists v, In v arr /\ distSq x z v = c' /\
               snd (fst v) = snd (fold_left (getPlaneY_step x z) arr (Some c, y))).
Proof.
  induction arr as [|v0 arr IH]; intros c y.
  - exists c. cbn. repeat split; [lra|tauto|now left].
  - cbn [fold_left]. rewrite getPlaneY_step_Some.
    destruct (Rltb (distSq x z v0) c) eqn:Hlt.
    + apply Rltb_spec in Hlt.
      destruct (IH (distSq x z v0) (snd (fst v0))) as (c' & Hf & Hle & Hmin & Hw).
      exists c'. repeat split; [assumption|lra| |].
      * intros u [<-|Hu]; [assumption|now apply Hmin].
      * right. destruct Hw as [[-> Hy]|(v & Hv & Hd & Hy)].
        -- exists v0. repeat split; [now left|now rewrite Hy].
        -- exists v. repeat split; [now right|assumption|assumption].
    + assert (Hge : c <= distSq x z v0).
      { destruct (Rle_or_lt c (distSq x z v0)) as [H|H]; [exact H|].
        apply Rltb_true in H. congruence. }
      destruct (IH c y) as (c' & Hf & Hle & Hmin & Hw).
      exists c'. repeat split; [assumption|assumption| |].
      * intros u [<-|Hu]; [lra|now apply Hmin].
      * destruct Hw as [Hsame|(v & Hv & Hd & Hy)]; [now left|right].
        exists v. repeat split; [now right|assumption|assumption].
Qed.

(** X20. [getPlaneY] is 0 without a plane and for a plane without vertices;
    otherwise it is the height of a vertex of the plane than which no vertex
    is horizontally nearer to [(x, z)]. *)
Theorem getPlaneY_nearest (arr : list vec3) (x z : R) :
  getPlaneY None x z = 0 /\
  getPlaneY (Some []) x z = 0 /\
  (arr <> [] ->
   exists v, In v arr /\ getPlaneY (Some arr) x z = snd (fst v) /\
             forall u, In u arr -> distSq x z v <= distSq x z u).
Proof.
  split; [reflexivity|]. split; [reflexivity|].
  destruct arr as [|v0 arr]; [congruence|]. intros _.
  unfold getPlaneY. cbn [fold_left]. rewrite getPlaneY_step_None.
  destruct (getPlaneY_fold x z arr (distSq x z v0) (snd (fst v0)))
    as (c' & Hf & Hle & Hmin & Hw).
  destruct Hw as [[-> Hy]|(v & Hv & Hd & Hy)].
  - exists v0. repeat split; [now left|now rewrite Hy|].
    intros u [<-|Hu]; [lra|now apply Hmin].
  - exists v. repeat split; [now right|now rewrite Hy|].
    rewrite Hd. intros u [<-|Hu]; [assumption|now apply Hmin].
Qed.

(** ** The objects of the page *)

(** X21. [updateObjectPosition] moves the objects with the given identifier
    and nothing else: the list keeps its length, every object keeps its
    identifier, type, mass, radius and velocity, an object with another
    identifier keeps its position too, and of two moves of one identifier
    only the last counts. *)
Theorem updateObjectPosition_moves_only (i : nat) (p p' : vec3)
    (objects : list CelestialObject) :
  map (fun o => (celestial_id o, celestial_type o, celestial_mass o,
                 celestial_radius o, celestial_velocity o))
      (updateObjectPosition i p objects) =
    map (fun o => (celestial_id o, celestial_type o, celestial_mass o,
                   celestial_radius o, celestial_velocity o)) objects /\
  (forall k o, nth_error objects k = Some o ->
     exists o', nth_error (updateObjectPosition i p objects) k = Some o' /\
       celestial_position o' = if Nat.eqb (celestial_id o) i then p
                               else celestial_position o) /\
  updateObjectPosition i p' (updateObjectPosition i p objects) =
    updateObjectPosition i p' objects.
Proof.
  unfold updateObjectPosition. repeat split.
  - rewrite map_map. apply map_ext. intros o.
    destruct (Nat.eqb (celestial_id o) i); reflexivity.
  - intros k o Hk. rewrite nth_error_map, Hk. cbn.
    eexists. split; [reflexivity|].
    destruct (Nat.eqb (celestial_id o) i); reflexivity.
  - rewrite map_map. apply map_ext. intros o.
    destruct (Nat.eqb (celestial_id o) i) eqn:E; cbn; now rewrite E.
Qed.

(** X22. An identifier no object has: [removeObject] and
    [updateObjectPosition] of the page return the list unchanged. *)
Theorem Home_unknown_id_noop (i : nat) (p : vec3)
    (objects : list CelestialObject) :
  ~ In i (map celestial_id objects) ->
  Home_removeObject i objects = objects /\
  updateObjectPosition i p objects = objects.
Proof.
  intros Hni.
  assert (H : forall o, In o objects -> Nat.eqb (celestial_id o) i = false).
  { intros o Hin. apply Nat.eqb_neq. intros E. apply Hni.
    apply in_map_iff. now exists o. }
  clear Hni. split.
  - unfold Home_removeObject. induction objects as [|o l IH]; [reflexivity|].
    cbn. rewrite (H o) by now left. cbn. f_equal.
    apply IH. intros o' Ho'. apply H. now right.
  - unfold updateObjectPosition.
    rewrite <- (map_id objects) at 2. apply map_ext_in.
    intros o Hin. now rewrite (H o Hin).
Qed.

Lemma Home_unknown_id_noop_witness :
  Home_removeObject 7 (Home_addObject planet medium 0 3 []) =
    Home_addObject planet medium 0 3 [] /\
  updateObjectPosition 7 (1, 0, 1) (Home_addObject planet medium 0 3 []) =
    Home_addObject planet medium 0 3 [].
Proof.
  apply (Home_unknown_id_noop 7 (1, 0, 1) (Home_addObject planet medium 0 3 [])).
  cbn. intros [H|[]]. discriminate.
Defined.

Lemma Home_addObject_last (type : CelestialType) (size : SizeClass)
    (planeY : R) (now : nat) (objects : list CelestialObject) :
  exists o, Home_addObject type size planeY now objects = objects ++ [o] /\
    celestial_id o = now /\ celestial_type o = type /\
    celestial_position o = (0, planeY, 0) /\
    celestial_velocity o = (0, 0, 0) /\
    celestial_radius o = fst (sizeProperties size) /\
    celestial_mass o = match type with
                       | blackHole => snd (sizeProperties size) * 5
                       | planet => snd (sizeProperties size)
                       end.
Proof.
  unfold Home_addObject. destruct (sizeProperties size) as [r m].
  eexists. split; [reflexivity|]. cbn. repeat split.
Qed.

(** X23. Every object the page adds is put at rest at [x = 0], [z = 0], with
    a positive mass and a positive radius; a black hole has the radius of a
    planet of the same size and five times its mass.  So two objects added
    one after the other are at the same place unless the first was moved. *)
Theorem Home_addObject_places_at_origin (type : CelestialType)
    (size : SizeClass) (planeY : R) (now : nat)
    (objects : list CelestialObject) :
  exists o, Home_addObject type size planeY now objects = objects ++ [o] /\
    celestial_position o = (0, planeY, 0) /\
    celestial_velocity o = (0, 0, 0) /\
    0 < celestial_mass o /\ 0 < celestial_radius o /\
    forall planeY' now' objects',
      exists o', Home_addObject planet size planeY' now' objects'
                   = objects' ++ [o'] /\
        celestial_radius o = celestial_radius o' /\
        celestial_mass o = match type with
                           | blackHole => 5 * celestial_mass o'
                           | planet => celestial_mass o'
                           end.
Proof.
  destruct (Home_addObject_last type size planeY now objects)
    as (o & E & _ & _ & Hp & Hv & Hr & Hm).
  exists o. repeat split; try assumption.
  - rewrite Hm. destruct type, size; cbn; lra.
  - rewrite Hr. destruct size; cbn; lra.
  - intros planeY' now' objects'.
    destruct (Home_addObject_last planet size planeY' now' objects')
      as (o' & E' & _ & _ & _ & _ & Hr' & Hm').
    exists o'. split; [assumption|]. rewrite Hr, Hr', Hm, Hm'.
    split; [reflexivity|]. destruct type; lra.
Qed.

(** X24. The identifier is the time of the click and is not checked against
    the list: two objects added at the same time share it, and removing it
    removes both. *)
Theorem Home_same_time_same_id (type type' : CelestialType)
    (size size' : SizeClass) (planeY planeY' : R) (now : nat)
    (objects : list CelestialObject) :
  Home_removeObject now
    (Home_addObject type' size' planeY' now
       (Home_addObject type size planeY now objects))
  = Home_removeObject now objects.
Proof.
  destruct (Home_addObject_last type size planeY now objects)
    as (o & -> & Hid & _).
  destruct (Home_addObject_last type' size' planeY' now (objects ++ [o]))
    as (o' & -> & Hid' & _).
  unfold Home_removeObject. rewrite !filter_app. cbn.
  rewrite Hid, Hid', Nat.eqb_refl. cbn. now rewrite !app_nil_r.
Qed.

(** * The canvas version *)

(** ** The grid *)

Lemma flat_map_rows_length {A B : Type} (f : A -> list B) (w : nat)
    (l : list A) :
  (forall a, List.length (f a) = w) ->
  List.length (flat_map f l) = (List.length l * w)%nat.
Proof.
  intros Hw. induction l as [|a l IH]; [reflexivity|].
  cbn. rewrite length_app, Hw, IH. reflexivity.
Qed.

Lemma flat_map_rows_nth {A B : Type} (f : A -> list B) (w : nat) :
  (forall a, List.length (f a) = w) ->
  forall (l : list A) (i j : nat) (a : A),
  nth_error l i = Some a -> (j < w)%nat ->
  nth_error (flat_map f l) (i * w + j) = nth_error (f a) j.
Proof.
  intros Hw. induction l as [|a0 l IH]; intros [|i] j a Hi Hj; try discriminate.
  - injection Hi as ->. cbn. apply nth_error_app1. now rewrite Hw.
  - cbn in Hi. cbn [flat_map]. rewrite nth_error_app2 by (rewrite Hw; cbn; lia).
    rewrite Hw. replace (S i * w + j - w)%nat with (i * w + j)%nat by (cbn; lia).
    now apply IH.
Qed.

Lemma initGrid_length (cols rows : nat) :
  List.length (initGrid cols rows) = ((cols + 1) * (rows + 1))%nat.
Proof.
  unfold initGrid.
  rewrite (flat_map_rows_length _ (S rows))
    by (intros; now rewrite length_map, length_seq).
  rewrite length_seq. lia.
Qed.

Lemma initGrid_nth (cols rows i j : nat) :
  (i <= cols)%nat -> (j <= rows)%nat ->
  draw_point rows (initGrid cols rows) i j =
  Some (mkGridNode (INR i * canvas_gridSize) (JS.Fin (INR j * canvas_gridSize))
                   (INR i * canvas_gridSize) (INR j * canvas_gridSize)
                   (JS.Fin 0)).
Proof.
  intros Hi Hj. unfold draw_point, initGrid.
  replace (rows + 1)%nat with (S rows) by lia.
  rewrite (flat_map_rows_nth _ (S rows)) with (a := i);
    [|intros; now rewrite length_map, length_seq| |lia].
  - rewrite nth_error_map, nth_error_seq.
    destruct (Nat.ltb_spec j (S rows)); [reflexivity|lia].
  - rewrite nth_error_seq. destruct (Nat.ltb_spec i (S cols)); [reflexivity|lia].
Qed.

(** X25. The grid is laid out column by column and [draw] finds its points
    again: the grid has [(cols + 1) * (rows + 1)] points, and after any
    [updateGrid] the lookup [points[i * (rows + 1) + j]] is the point with
    base [(i * 40, j * 40)], drawn at its base moved down by its
    displacement. *)
Theorem draw_finds_grid_point (objects : list CanvasObject)
    (cols rows i j : nat) :
  (i <= cols)%nat -> (j <= rows)%nat ->
  List.length (updateGrid objects (initGrid cols rows))
    = ((cols + 1) * (rows + 1))%nat /\
  exists node,
    draw_point rows (updateGrid objects (initGrid cols rows)) i j = Some node /\
    baseX node = INR i * 40 /\ baseY node = INR j * 40 /\
    node_x node = baseX node /\
    node_y node = JS.add (JS.Fin (baseY node)) (displacement node).
Proof.
  intros Hi Hj. split.
  - unfold updateGrid. now rewrite length_map, initGrid_length.
  - pose proof (initGrid_nth cols rows i j Hi Hj) as H.
    unfold draw_point, updateGrid in *. rewrite nth_error_map, H. cbn.
    eexists. split; [reflexivity|]. cbn. unfold canvas_gridSize. auto.
Qed.

Lemma draw_finds_grid_point_witness :
  List.length (updateGrid [] (initGrid 2 1)) = ((2 + 1) * (1 + 1))%nat /\
  exists node,
    draw_point 1 (updateGrid [] (initGrid 2 1)) 2 1 = Some node /\
    baseX node = INR 2 * 40 /\ baseY node = INR 1 * 40 /\
    node_x node = baseX node /\
    node_y node = JS.add (JS.Fin (baseY node)) (displacement node).
Proof.
  apply (draw_finds_grid_point [] 2 1 2 1); lia.
Defined.

(** X26. The grid is built once for the size the canvas had then, whereas
    [draw] computes [cols] and [rows] anew: when the canvas has since grown
    in at least one direction and shrunk in none, the last lookup of [draw]
    is past the end of the array. *)
Theorem draw_misses_after_growth (cols rows cols' rows' : nat) :
  (cols <= cols')%nat -> (rows <= rows')%nat ->
  (cols < cols' \/ rows < rows')%nat ->
  draw_point rows' (initGrid cols rows) cols' rows' = None.
Proof.
  intros Hc Hr Hgrow. unfold draw_point. apply nth_error_None.
  rewrite initGrid_length. nia.
Qed.

Lemma draw_misses_after_growth_witness :
  draw_point 2 (initGrid 1 1) 1 2 = None.
Proof.
  apply (draw_misses_after_growth 1 1 1 2); lia.
Defined.

(** ** The displacement *)

(** What one object of positive mass adds to the displacement of a point at
    distance [d]: a finite amount, positive and at most 50, and exactly 50
    when the distance is zero, where the force is [Infinity]. *)
Lemma force_clamped (m d : R) :
  0 < m ->
  exists c,
    JS.min (JS.div (JS.Fin (m * 1000)) (JS.Fin (d * d))) (JS.Fin 50) = JS.Fin c /\
    0 < c <= 50 /\ (d = 0 -> c = 50).
Proof.
  intros Hm. cbn [JS.div].
  destruct (Req_dec_T (d * d) 0) as [E|N].
  - exists 50. unfold JS.inf_times. rewrite Rltb_true by lra.
    cbn [JS.signed_inf JS.min]. repeat split; lra.
  - exists (Rmin (m * 1000 / (d * d)) 50). cbn [JS.min].
    assert (Hf : 0 < m * 1000 / (d * d)).
    { apply Rdiv_lt_0_compat; [lra|].
      pose proof (Rle_0_sqr d). unfold Rsqr in *. lra. }
    repeat split.
    + apply Rmin_glb_lt; lra.
    + apply Rmin_r.
    + intros E. exfalso. apply N. rewrite E. lra.
Qed.

Lemma updateGrid_displacement_bounds (objects : list (R * R * R))
    (bx by_ : R) :
  Forall (fun o => 0 < snd o) objects ->
  exists d,
    updateGrid_displacement objects bx by_ = JS.Fin d /\
    0 <= d <= 50 * INR (List.length objects) /\
    (Exists (fun o => fst (fst o) = bx /\ snd (fst o) = by_) objects -> 50 <= d).
Proof.
  intros Hm. unfold updateGrid_displacement.
  assert (H : forall acc, exists d,
    fold_left (fun totalDisplacement '(objX, objY, objMass) =>
               let dx := bx - objX in
               let dy := by_ - objY in
               let distance := sqrt (dx * dx + dy * dy) in
               let force :=
                 JS.div (JS.Fin (objMass * 1000))
                        (JS.Fin (distance * distance)) in
               JS.add totalDisplacement (JS.min force (JS.Fin 50)))
      objects (JS.Fin acc) = JS.Fin d /\
    acc <= d <= acc + 50 * INR (List.length objects) /\
    (Exists (fun o => fst (fst o) = bx /\ snd (fst o) = by_) objects ->
     acc + 50 <= d)).
  { induction Hm as [|[[ox oy] m] l Ho _ IH]; intros acc.
    - exists acc. cbn. repeat split; try lra. intros H. inversion H.
    - cbn [fold_left]. cbv zeta. cbn [snd] in Ho.
      set (dist := sqrt _).
      destruct (force_clamped m dist Ho) as (c & -> & Hc & Hzero).
      cbn [JS.add].
      destruct (IH (acc + c)) as (d & Hfold & Hd & Hunder).
      exists d. split; [exact Hfold|].
      change (List.length ((ox, oy, m) :: l)) with (S (List.length l)).
      rewrite S_INR. split; [lra|].
      intros Hex. apply Exists_cons in Hex. destruct Hex as [[Hx Hy]|Hex].
      + cbn [fst snd] in Hx, Hy.
        assert (Hc50 : c = 50).
        { apply Hzero. unfold dist. rewrite Hx, Hy.
          replace ((bx - bx) * (bx - bx) + (by_ - by_) * (by_ - by_)) with 0
            by lra.
          apply sqrt_0. }
        lra.
      + specialize (Hunder Hex). lra. }
  destruct (H 0) as (d & Hd & Hb & Hu). exists d.
  split; [exact Hd|]. split; [lra|]. intros Hex. specialize (Hu Hex). lra.
Qed.

(** X27. [updateGrid] never moves the base of a point and computes the
    displacement from the bases alone, so applying it twice is applying it
    once; with positive masses the displacement of a point is finite, each
    object adds between 0 and 50 to it, and a point directly under an object
    gets the full 50 from it: the force is [Infinity] there and
    [Math.min(force, 50)] is 50. *)
Theorem updateGrid_clamps (objects : list CanvasObject)
    (points : list GridNode) :
  Forall (fun obj => 0 < canvas_mass obj) objects ->
  map (fun node => (baseX node, baseY node)) (updateGrid objects points)
    = map (fun node => (baseX node, baseY node)) points /\
  updateGrid objects (updateGrid objects points) = updateGrid objects points /\
  Forall (fun node =>
            exists d,
              displacement node = JS.Fin d /\
              node_y node = JS.Fin (baseY node + d) /\
              0 <= d <= 50 * INR (List.length objects) /\
              (Exists (fun obj => canvas_x obj = baseX node /\
                                  canvas_y obj = baseY node) objects ->
               50 <= d))
         (updateGrid objects points).
Proof.
  intros Hm. unfold updateGrid. repeat split.
  - rewrite map_map. reflexivity.
  - rewrite map_map. reflexivity.
  - apply Forall_map, Forall_forall. intros node _.
    cbn [displacement node_y baseX baseY].
    destruct (updateGrid_displacement_bounds
                (map (fun obj => (canvas_x obj, canvas_y obj, canvas_mass obj))
                     objects)
                (baseX node) (baseY node)) as (d & Hd & Hb & Hu).
    { apply Forall_map. exact Hm. }
    exists d. rewrite Hd. rewrite length_map in Hb.
    repeat split; try lra.
    intros Hex. apply Hu. apply Exists_map. exact Hex.
Qed.

Lemma updateGrid_clamps_witness :
  map (fun node => (baseX node, baseY node))
      (updateGrid [newCanvasObject 0 0 "blackhole" 5] (initGrid 1 1))
    = map (fun node => (baseX node, baseY node)) (initGrid 1 1) /\
  updateGrid [newCanvasObject 0 0 "blackhole" 5]
    (updateGrid [newCanvasObject 0 0 "blackhole" 5] (initGrid 1 1))
    = updateGrid [newCanvasObject 0 0 "blackhole" 5] (initGrid 1 1) /\
  Forall (fun node =>
            exists d,
              displacement node = JS.Fin d /\
              node_y node = JS.Fin (baseY node + d) /\
              0 <= d <= 50 * INR (List.length [newCanvasObject 0 0 "blackhole" 5]) /\
              (Exists (fun obj => canvas_x obj = baseX node /\
                                  canvas_y obj = baseY node)
                      [newCanvasObject 0 0 "blackhole" 5] ->
               50 <= d))
         (updateGrid [newCanvasObject 0 0 "blackhole" 5] (initGrid 1 1)).
Proof.
  apply (updateGrid_clamps [newCanvasObject 0 0 "blackhole" 5] (initGrid 1 1)).
  repeat constructor. cbn. lra.
Defined.

(** ** The force between two objects *)

Lemma hypot_pos (dx dy : R) : dx <> 0 \/ dy <> 0 -> 0 < sqrt (dx * dx + dy * dy).
Proof.
  intros H. apply sqrt_lt_R0.
  pose proof (Rle_0_sqr dx) as Hx. pose proof (Rle_0_sqr dy) as Hy.
  unfold Rsqr in *.
  destruct H as [H|H].
  - assert (0 < dx * dx) by (destruct (Rtotal_order dx 0) as [?|[?|?]]; nra). lra.
  - assert (0 < dy * dy) by (destruct (Rtotal_order dy 0) as [?|[?|?]]; nra). lra.
Qed.

Lemma sqrt_one_plus_slope (dx dy : R) :
  dx <> 0 ->
  sqrt (1 + (dy / dx)²) = sqrt (dx * dx + dy * dy) / Rabs dx.
Proof.
  intros Hx.
  assert (Ha : 0 < Rabs dx) by now apply Rabs_pos_lt.
  assert (Hd : 0 < sqrt (dx * dx + dy * dy)) by (apply hypot_pos; now left).
  apply sqrt_lem_1.
  - pose proof (Rle_0_sqr (dy / dx)). lra.
  - apply Rlt_le, Rdiv_lt_0_compat; assumption.
  - assert (Hs : sqrt (dx * dx + dy * dy) * sqrt (dx * dx + dy * dy)
                 = dx * dx + dy * dy).
    { apply sqrt_sqrt. pose proof (Rle_0_sqr dx). pose proof (Rle_0_sqr dy).
      unfold Rsqr in *. lra. }
    assert (Hq : Rabs dx * Rabs dx = dx * dx).
    { rewrite <- Rabs_mult. apply Rabs_pos_eq.
      pose proof (Rle_0_sqr dx). unfold Rsqr in *. lra. }
    unfold Rsqr.
    replace (sqrt (dx * dx + dy * dy) / Rabs dx
             * (sqrt (dx * dx + dy * dy) / Rabs dx))
      with ((sqrt (dx * dx + dy * dy) * sqrt (dx * dx + dy * dy))
            / (Rabs dx * Rabs dx)) by (field; lra).
    rewrite Hs, Hq. field. assumption.
Qed.

(** The angle [Math.atan2(dy, dx)] is the direction of [(dx, dy)]. *)
Lemma atan2_direction (dx dy : R) :
  dx <> 0 \/ dy <> 0 ->
  cos (atan2 dy dx) = dx / sqrt (dx * dx + dy * dy) /\
  sin (atan2 dy dx) = dy / sqrt (dx * dx + dy * dy).
Proof.
  intros Hne. pose proof (hypot_pos dx dy Hne) as Hd.
  set (d := sqrt (dx * dx + dy * dy)) in *.
  unfold atan2.
  destruct (Rltb 0 dx) eqn:Hpos.
  - apply Rltb_spec in Hpos.
    assert (Hx : dx <> 0) by lra.
    rewrite cos_atan, sin_atan, (sqrt_one_plus_slope dx dy Hx).
    fold d. rewrite Rabs_pos_eq by lra. split; field; lra.
  - assert (Hle : dx <= 0).
    { destruct (Rle_or_lt dx 0) as [H|H]; [exact H|].
      apply Rltb_true in H. congruence. }
    destruct (Rltb dx 0) eqn:Hneg.
    + apply Rltb_spec in Hneg.
      assert (Hx : dx <> 0) by lra.
      pose proof (sqrt_one_plus_slope dx dy Hx) as Hs. fold d in Hs.
      rewrite Rabs_left in Hs by assumption.
      destruct (Rltb dy 0).
      * rewrite cos_minus, sin_minus, cos_PI, sin_PI, cos_atan, sin_atan, Hs.
        split; field; lra.
      * rewrite cos_plus, sin_plus, cos_PI, sin_PI, cos_atan, sin_atan, Hs.
        split; field; lra.
    + assert (Hx : dx = 0).
      { destruct (Rle_or_lt 0 dx) as [H|H]; [lra|].
        apply Rltb_true in H. congruence. }
      subst dx.
      assert (Hdy : d = Rabs dy).
      { unfold d. replace (0 * 0 + dy * dy) with (Rsqr dy)
          by (unfold Rsqr; lra). apply sqrt_Rsqr_abs. }
      destruct (Rltb 0 dy) eqn:Hy.
      * apply Rltb_spec in Hy. rewrite Hdy, Rabs_pos_eq by lra.
        rewrite cos_PI2, sin_PI2. split; field; lra.
      * destruct (Rltb dy 0) eqn:Hy'.
        -- apply Rltb_spec in Hy'. rewrite Hdy, Rabs_left by assumption.
           rewrite cos_neg, sin_neg, cos_PI2, sin_PI2. split; field; lra.
        -- exfalso. destruct Hne as [H|H]; [lra|]. apply H.
           destruct (Rtotal_order dy 0) as [H0|[H0|H0]]; [|exact H0|].
           ++ apply Rltb_true in H0. congruence.
           ++ apply Rltb_true in H0. congruence.
Qed.

Lemma applyGravitationalForce_Removed (this otherObject : CanvasObject) :
  applyGravitationalForce this otherObject = Removed <->
  applyGravitationalForce_removed this otherObject = true.
Proof.
  unfold applyGravitationalForce, applyGravitationalForce_removed. cbv zeta.
  destruct (Rltb _ _); [|split; discriminate].
  destruct (String.eqb _ _); split; try discriminate; reflexivity.
Qed.

(** X28. A force is applied only between objects that do not touch.  When
    the centres are apart and both masses are positive it is a positive
    multiple of the vector from the centre of [this] to the centre of
    [otherObject], applied to [otherObject], so it pushes [otherObject] away
    from [this]; its size is [0.0001 * m1 * m2 / d^2]. *)
Theorem applyGravitationalForce_pushes_away (this otherObject : CanvasObject)
    (fx fy : R) :
  applyGravitationalForce this otherObject = Pushed fx fy ->
  0 < canvas_mass this -> 0 < canvas_mass otherObject ->
  canvas_x otherObject <> canvas_x this \/
  canvas_y otherObject <> canvas_y this ->
  let dx := canvas_x otherObject - canvas_x this in
  let dy := canvas_y otherObject - canvas_y this in
  let d := sqrt (dx * dx + dy * dy) in
  canvas_radius this + canvas_radius otherObject <= d /\
  exists k, 0 < k /\ fx = k * dx /\ fy = k * dy /\
    k * d = 0.0001 * canvas_mass this * canvas_mass otherObject / (d * d).
Proof.
  intros Hp Hm1 Hm2 Hne dx dy d.
  unfold applyGravitationalForce in Hp. cbv zeta in Hp.
  fold dx dy in Hp. fold d in Hp.
  assert (Hne' : dx <> 0 \/ dy <> 0) by (unfold dx, dy; lra).
  pose proof (hypot_pos dx dy Hne') as Hd. fold d in Hd.
  destruct (atan2_direction dx dy Hne') as [Hc Hs]. fold d in Hc, Hs.
  destruct (Rltb d _) eqn:Hlt.
  - destruct (String.eqb _ _); discriminate.
  - split.
    + destruct (Rle_or_lt (canvas_radius this + canvas_radius otherObject) d)
        as [H|H]; [exact H|].
      apply Rltb_true in H. congruence.
    + injection Hp as <- <-. rewrite Hc, Hs.
      exists (canvas_mass this * canvas_mass otherObject / (d * d) * 0.0001 / d).
      assert (E : 0.0001 = 1 / 10000) by lra. rewrite E.
      repeat split; try (field; lra).
      apply Rdiv_lt_0_compat; [|assumption].
      apply Rmult_lt_0_compat; [|lra].
      apply Rdiv_lt_0_compat; [now apply Rmult_lt_0_compat|].
      now apply Rmult_lt_0_compat.
Qed.

(** ** The interaction pass *)

Lemma removed_needs_black_hole (obj o : CanvasObject) :
  String.eqb (canvas_type obj) "blackhole" = false ->
  applyGravitationalForce_removed obj o = false.
Proof.
  intros H. unfold applyGravitationalForce_removed. cbv zeta. rewrite H.
  now destruct (Rltb _ _).
Qed.

Lemma splice1_length {A : Type} (i : nat) (l : list A) :
  (List.length (splice1 i l) <= List.length l)%nat.
Proof.
  revert i. induction l as [|a l IH]; intros [|i]; cbn; try lia.
  specialize (IH i). lia.
Qed.

Lemma splice1_length_lt {A : Type} (i : nat) (l : list A) :
  (i < List.length l)%nat -> S (List.length (splice1 i l)) = List.length l.
Proof.
  revert i. induction l as [|a l IH]; intros [|i] H; cbn in *; try lia.
  rewrite IH by lia. reflexivity.
Qed.

Lemma firstn_splice1 {A : Type} (i : nat) (l : list A) :
  firstn i (splice1 i l) = firstn i l.
Proof.
  revert i. induction l as [|a l IH]; intros [|i]; cbn; try reflexivity.
  now rewrite IH.
Qed.

Lemma skipn_splice1 {A : Type} (i : nat) (l : list A) :
  skipn i (splice1 i l) = skipn (S i) l.
Proof.
  revert i. induction l as [|a l IH]; intros [|i]; cbn; try reflexivity.
  apply IH.
Qed.

Lemma firstn_snoc {A : Type} (i : nat) (l : list A) (a : A) :
  nth_error l i = Some a -> firstn (S i) l = firstn i l ++ [a].
Proof.
  revert i. induction l as [|b l IH]; intros [|i] H; cbn in *; try discriminate.
  - now injection H as ->.
  - f_equal. now apply IH.
Qed.

Lemma skipn_cons_nth {A : Type} (i : nat) (l : list A) (a : A) :
  nth_error l i = Some a -> skipn i l = a :: skipn (S i) l.
Proof.
  revert i. induction l as [|b l IH]; intros [|i] H; cbn in *; try discriminate.
  - now injection H as ->.
  - now apply IH.
Qed.

Lemma keep_from_app (obj : CanvasObject) (index : nat) (l l' : list CanvasObject) :
  forall i, keep_from obj index i (l ++ l') =
            keep_from obj index i l ++ keep_from obj index (i + List.length l) l'.
Proof.
  induction l as [|o l IH]; intros i; cbn.
  - now rewrite Nat.add_0_r.
  - rewrite IH. replace (S i + List.length l)%nat with (i + S (List.length l))%nat by lia.
    now destruct (_ || _).
Qed.

Lemma interact_down_keep (obj : CanvasObject) (index : nat) :
  forall (n : nat) (l : list CanvasObject),
  (n <= List.length l)%nat ->
  interact_down obj index n l =
  keep_from obj index 0 (firstn n l) ++ skipn n l.
Proof.
  induction n as [|i IH]; intros l Hn; [reflexivity|].
  cbn [interact_down].
  destruct (nth_error l i) as [other|] eqn:Hi;
    [|apply nth_error_None in Hi; lia].
  rewrite (firstn_snoc i l other Hi), keep_from_app.
  rewrite firstn_length_le by lia. cbn [keep_from Nat.add].
  destruct (Nat.eqb i index) eqn:Eidx; cbn [orb].
  - rewrite IH by lia. rewrite (skipn_cons_nth i l other Hi).
    now rewrite <- app_assoc.
  - destruct (applyGravitationalForce_removed obj other); cbn [negb].
    + assert (Hlen : (i < List.length l)%nat)
        by (apply nth_error_Some; congruence).
      pose proof (splice1_length_lt i l Hlen) as Hs.
      rewrite IH by lia. now rewrite firstn_splice1, skipn_splice1, app_nil_r.
    + rewrite IH by lia. rewrite (skipn_cons_nth i l other Hi).
      now rewrite <- app_assoc.
Qed.

Lemma interact_down_all (obj : CanvasObject) (index : nat)
    (l : list CanvasObject) :
  interact_down obj index (List.length l) l = keep_from obj index 0 l.
Proof.
  rewrite interact_down_keep by lia.
  now rewrite firstn_all, skipn_all, app_nil_r.
Qed.

Lemma keep_from_incl (obj : CanvasObject) (index : nat) (l : list CanvasObject) :
  forall i, incl (keep_from obj index i l) l.
Proof.
  induction l as [|o l IH]; intros i; cbn; [apply incl_refl|].
  destruct (_ || _).
  - apply incl_cons; [now left|]. apply incl_tl, IH.
  - apply incl_tl, IH.
Qed.

Lemma keep_from_length (obj : CanvasObject) (index : nat) (l : list CanvasObject) :
  forall i, (List.length (keep_from obj index i l) <= List.length l)%nat.
Proof.
  induction l as [|o l IH]; intros i; cbn; [lia|].
  specialize (IH (S i)). destruct (_ || _); cbn; lia.
Qed.

Lemma keep_from_inert (obj : CanvasObject) (index : nat) (l : list CanvasObject) :
  String.eqb (canvas_type obj) "blackhole" = false ->
  forall i, keep_from obj index i l = l.
Proof.
  intros H. induction l as [|o l IH]; intros i; cbn; [reflexivity|].
  rewrite (removed_needs_black_hole obj o H), orb_true_r. now rewrite IH.
Qed.

Lemma animate_from_turn (index turns : nat) (objects : list CanvasObject) :
  animate_from index (S turns) objects =
  animate_from (S index) turns (animate_turn index objects).
Proof. reflexivity. Qed.

Lemma animate_turn_spec (index : nat) (objects : list CanvasObject) :
  incl (animate_turn index objects) objects /\
  (List.length (animate_turn index objects) <= List.length objects)%nat.
Proof.
  unfold animate_turn.
  destruct (nth_error objects index) as [obj|] eqn:Hobj.
  - rewrite interact_down_all. split.
    + apply keep_from_incl.
    + apply keep_from_length.
  - split; [apply incl_refl|lia].
Qed.

Lemma animate_from_spec (turns : nat) :
  forall (index : nat) (objects : list CanvasObject),
  incl (animate_from index turns objects) objects /\
  (List.length (animate_from index turns objects) <= List.length objects)%nat.
Proof.
  induction turns as [|turns IH]; intros index objects.
  - split; [apply incl_refl|cbn; lia].
  - rewrite animate_from_turn.
    destruct (animate_turn_spec index objects) as (Hi & Hl).
    destruct (IH (S index) (animate_turn index objects)) as (Hi' & Hl').
    split.
    + eapply incl_tran; eauto.
    + lia.
Qed.

Lemma animate_from_inert (turns : nat) :
  forall (index : nat) (objects : list CanvasObject),
  (forall j o, (index <= j)%nat -> nth_error objects j = Some o ->
               String.eqb (canvas_type o) "blackhole" = false) ->
  animate_from index turns objects = objects.
Proof.
  induction turns as [|turns IH]; intros index objects H; [reflexivity|].
  rewrite animate_from_turn.
  assert (E : animate_turn index objects = objects).
  { unfold animate_turn. destruct (nth_error objects index) as [obj|] eqn:Hobj;
      [|reflexivity].
    rewrite interact_down_all. apply keep_from_inert.
    now apply (H index obj). }
  rewrite E. apply IH. intros j o Hj. apply H. lia.
Qed.

(** *** Which indices the pass keeps

    The list during the pass is the list before it at an increasing list of
    indices; [idx] below is that list of indices. *)

Lemma StronglySorted_lt_seq (len : nat) :
  forall start, StronglySorted lt (seq start len).
Proof.
  induction len as [|len IH]; intros start; cbn; constructor.
  - apply IH.
  - apply Forall_forall. intros k Hk. apply in_seq in Hk. lia.
Qed.

Lemma StronglySorted_lt_NoDup (idx : list nat) :
  StronglySorted lt idx -> NoDup idx.
Proof.
  induction 1 as [|k idx _ IH Hlt]; constructor; [|exact IH].
  intros Hin. rewrite Forall_forall in Hlt. specialize (Hlt k Hin). lia.
Qed.

Lemma list_at_own_indices {A : Type} (l : list A) :
  map Some l = map (nth_error l) (seq 0 (List.length l)).
Proof.
  apply nth_error_ext. intros n. rewrite !nth_error_map, nth_error_seq.
  destruct (Nat.ltb_spec n (List.length l)) as [H|H]; cbn.
  - destruct (nth_error l n) eqn:E; [reflexivity|].
    apply nth_error_None in E. lia.
  - apply nth_error_None in H. now rewrite H.
Qed.

Lemma taken_at {A : Type} (objects l : list A) (idx : list nat) (p : nat) :
  map Some l = map (nth_error objects) idx ->
  option_map Some (nth_error l p) =
  option_map (nth_error objects) (nth_error idx p).
Proof.
  intros H. rewrite <- !nth_error_map. now rewrite H.
Qed.

Lemma keep_from_kept (objects : list CanvasObject) (obj : CanvasObject)
    (index : nat) :
  forall (l : list CanvasObject) (idx : list nat) (i : nat),
  map Some l = map (nth_error objects) idx ->
  exists idx',
    map Some (keep_from obj index i l) = map (nth_error objects) idx' /\
    incl idx' idx /\
    (StronglySorted lt idx -> StronglySorted lt idx') /\
    (forall p k o, nth_error idx p = Some k -> nth_error l p = Some o ->
       (i + p)%nat = index \/ applyGravitationalForce_removed obj o = false ->
       In k idx').
Proof.
  induction l as [|o l IH]; intros [|k0 idx] i H; try discriminate.
  - exists []. repeat split; [apply incl_refl|auto|].
    intros [|p] k o Hk; discriminate.
  - cbn [map] in H. injection H as Ho Hl.
    destruct (IH idx (S i) Hl) as (idx' & Hmap & Hincl & Hsort & Hkeep).
    cbn [keep_from].
    destruct (Nat.eqb i index || negb (applyGravitationalForce_removed obj o))
      eqn:Hc.
    + exists (k0 :: idx'). repeat split.
      * cbn [map]. now rewrite Ho, Hmap.
      * intros k [->|Hk]; [now left|right; now apply Hincl].
      * intros Hs. apply StronglySorted_inv in Hs. destruct Hs as [Hs Hlt].
        constructor; [now apply Hsort|].
        rewrite Forall_forall in *. intros k Hk. apply Hlt, Hincl, Hk.
      * intros [|p] k o' Hk Ho' Hfree; cbn in Hk, Ho'.
        -- injection Hk as <-. now left.
        -- right. apply (Hkeep p k o' Hk Ho').
           destruct Hfree as [E|E]; [left; lia|now right].
    + exists idx'. repeat split.
      * exact Hmap.
      * now apply incl_tl.
      * intros Hs. apply StronglySorted_inv in Hs. now apply Hsort.
      * intros [|p] k o' Hk Ho' Hfree; cbn in Hk, Ho'.
        -- injection Ho' as <-. exfalso.
           apply orb_false_iff in Hc. destruct Hc as [Hi Hr].
           apply negb_false_iff in Hr. apply Nat.eqb_neq in Hi.
           destruct Hfree as [E|E]; [lia|congruence].
        -- apply (Hkeep p k o' Hk Ho').
           destruct Hfree as [E|E]; [left; lia|now right].
Qed.

Lemma animate_turn_kept (objects : list CanvasObject) (index : nat)
    (l : list CanvasObject) (idx : list nat) :
  StronglySorted lt idx ->
  map Some l = map (nth_error objects) idx ->
  exists idx',
    StronglySorted lt idx' /\
    map Some (animate_turn index l) = map (nth_error objects) idx' /\
    (forall k o, In k idx -> nth_error objects k = Some o ->
       (forall j b, j <> k -> nth_error objects j = Some b ->
          applyGravitationalForce_removed b o = false) ->
       In k idx').
Proof.
  intros Hs Hl. unfold animate_turn.
  destruct (nth_error l index) as [obj|] eqn:Hobj.
  - rewrite interact_down_all.
    destruct (keep_from_kept objects obj index l idx 0 Hl)
      as (idx' & Hmap & _ & Hsort & Hkeep).
    exists idx'. repeat split; [now apply Hsort|exact Hmap|].
    intros k o Hk Ho Hfree.
    apply In_nth_error in Hk. destruct Hk as [p Hp].
    pose proof (taken_at objects l idx p Hl) as Hat.
    rewrite Hp in Hat. cbn in Hat. rewrite Ho in Hat.
    destruct (nth_error l p) as [o'|] eqn:Ho'; [|discriminate].
    cbn in Hat. injection Hat as ->.
    apply (Hkeep p k o Hp Ho'). cbn [Nat.add].
    destruct (Nat.eq_dec p index) as [E|N]; [now left|right].
    pose proof (taken_at objects l idx index Hl) as Hat.
    rewrite Hobj in Hat. cbn in Hat.
    destruct (nth_error idx index) as [j|] eqn:Hj; [|discriminate].
    cbn in Hat. injection Hat as Hat. symmetry in Hat.
    apply (Hfree j obj); [|exact Hat].
    intros ->. apply N.
    apply StronglySorted_lt_NoDup in Hs.
    apply (proj1 (NoDup_nth_error idx) Hs).
    + apply nth_error_Some. congruence.
    + congruence.
  - exists idx. repeat split; auto.
Qed.

Lemma animate_from_kept (objects : list CanvasObject) (turns : nat) :
  forall (index : nat) (l : list CanvasObject) (idx : list nat),
  StronglySorted lt idx ->
  map Some l = map (nth_error objects) idx ->
  exists idx',
    StronglySorted lt idx' /\
    map Some (animate_from index turns l) = map (nth_error objects) idx' /\
    (forall k o, In k idx -> nth_error objects k = Some o ->
       (forall j b, j <> k -> nth_error objects j = Some b ->
          applyGravitationalForce_removed b o = false) ->
       In k idx').
Proof.
  induction turns as [|turns IH]; intros index l idx Hs Hl.
  - exists idx. repeat split; auto.
  - rewrite animate_from_turn.
    destruct (animate_turn_kept objects index l idx Hs Hl)
      as (idx1 & Hs1 & Hl1 & Hk1).
    destruct (IH (S index) (animate_turn index l) idx1 Hs1 Hl1)
      as (idx2 & Hs2 & Hl2 & Hk2).
    exists idx2. repeat split; [exact Hs2|exact Hl2|].
    intros k o Hk Ho Hfree. apply (Hk2 k o); [|exact Ho|exact Hfree].
    now apply (Hk1 k o).
Qed.

(** X29. The interaction pass only removes, and only what a black hole
    overlaps: the list after it is the list before it at an increasing list
    of indices [kept], so it is part of it, in the same order and no longer;
    [kept] has every index whose object no object at another index removes
    (the inner loop passes over [i = index], so a black hole does not remove
    itself), and that object is still in the list; without a black hole the
    list is unchanged. *)
Theorem animate_removes_only_overlapped (objects : list CanvasObject) :
  incl (animate_interactions objects) objects /\
  (List.length (animate_interactions objects) <= List.length objects)%nat /\
  (exists kept : list nat,
     StronglySorted lt kept /\
     map Some (animate_interactions objects) = map (nth_error objects) kept /\
     forall k o, nth_error objects k = Some o ->
       (forall j b, j <> k -> nth_error objects j = Some b ->
          applyGravitationalForce_removed b o = false) ->
       In k kept /\ In o (animate_interactions objects)) /\
  ((forall b, In b objects -> canvas_type b <> "blackhole"%string) ->
   animate_interactions objects = objects).
Proof.
  unfold animate_interactions.
  destruct (animate_from_spec (List.length objects) 0 objects) as (Hi & Hl).
  repeat split; try assumption.
  - destruct (animate_from_kept objects (List.length objects) 0 objects
                (seq 0 (List.length objects))
                (StronglySorted_lt_seq _ _) (list_at_own_indices objects))
      as (kept & Hs & Hmap & Hkeep).
    exists kept. repeat split; [exact Hs|exact Hmap| |].
    + apply (Hkeep k o); [|assumption|assumption].
      apply in_seq. split; [lia|]. cbn. apply nth_error_Some. congruence.
    + assert (Hin : In k kept).
      { apply (Hkeep k o); [|assumption|assumption].
        apply in_seq. split; [lia|]. cbn. apply nth_error_Some. congruence. }
      apply (in_map (nth_error objects)) in Hin.
      rewrite <- Hmap in Hin. apply in_map_iff in Hin.
      destruct Hin as (o' & Eo & Hin). congruence.
  - intros Hno. apply animate_from_inert. intros j o _ Hj.
    apply String.eqb_neq. apply Hno. eapply nth_error_In; eauto.
Qed.

Lemma animate_from_idle (m : nat) :
  forall (index turns : nat) (objects : list CanvasObject),
  (forall j o, (index <= j < index + m)%nat -> nth_error objects j = Some o ->
               String.eqb (canvas_type o) "blackhole" = false) ->
  animate_from index (m + turns) objects =
  animate_from (index + m) turns objects.
Proof.
  induction m as [|m IH]; intros index turns objects H.
  - now rewrite Nat.add_0_r.
  - cbn [Nat.add]. rewrite animate_from_turn.
    assert (E : animate_turn index objects = objects).
    { unfold animate_turn.
      destruct (nth_error objects index) as [obj|] eqn:Hobj; [|reflexivity].
      rewrite interact_down_all. apply keep_from_inert.
      apply (H index obj); [lia|assumption]. }
    rewrite E, IH.
    + f_equal. lia.
    + intros j o Hj. apply H. lia.
Qed.

Lemma keep_from_filter (hole : CanvasObject) (k : nat) (l : list CanvasObject) :
  forall i,
  (forall j o, nth_error l j = Some o ->
     String.eqb (canvas_type o) "blackhole" = Nat.eqb (i + j) k) ->
  keep_from hole k i l =
  filter (fun o => String.eqb (canvas_type o) "blackhole"
                   || negb (applyGravitationalForce_removed hole o)) l.
Proof.
  induction l as [|o l IH]; intros i H; [reflexivity|].
  cbn. rewrite (H 0%nat o eq_refl), Nat.add_0_r.
  rewrite IH; [reflexivity|].
  intros j o' Hj. rewrite (H (S j) o' Hj). f_equal. lia.
Qed.

Lemma nth_error_filter_later {A : Type} (f : A -> bool) (l : list A) :
  forall (j : nat) (a : A),
  nth_error (filter f l) j = Some a ->
  exists j', (j <= j')%nat /\ nth_error l j' = Some a.
Proof.
  induction l as [|b l IH]; intros j a H; [destruct j; discriminate|].
  cbn in H. destruct (f b).
  - destruct j as [|j]; cbn in H.
    + exists 0%nat. split; [lia|assumption].
    + destruct (IH j a H) as (j' & Hle & Hj'). exists (S j'). split; [lia|assumption].
  - destruct (IH j a H) as (j' & Hle & Hj'). exists (S j'). split; [lia|assumption].
Qed.

(** X30. With one black hole in the list, the interaction pass removes
    exactly the objects that the black hole overlaps, whatever their
    distance and wherever they are in the list. *)
Theorem single_black_hole_absorbs (objects : list CanvasObject) (k : nat)
    (hole : CanvasObject) :
  nth_error objects k = Some hole ->
  canvas_type hole = "blackhole"%string ->
  (forall j o, j <> k -> nth_error objects j = Some o ->
               canvas_type o <> "blackhole"%string) ->
  animate_interactions objects =
  filter (fun o => String.eqb (canvas_type o) "blackhole"
                   || negb (applyGravitationalForce_removed hole o)) objects.
Proof.
  intros Hk Hh Hothers.
  assert (Hlen : (k < List.length objects)%nat)
    by (apply nth_error_Some; congruence).
  unfold animate_interactions.
  replace (List.length objects) with (k + S (List.length objects - S k))%nat
    at 1 by lia.
  rewrite animate_from_idle, animate_from_turn.
  - cbn [Nat.add]. unfold animate_turn. rewrite Hk, interact_down_all.
    rewrite keep_from_filter.
    + apply animate_from_inert. intros j o Hj Ho.
      destruct (nth_error_filter_later _ _ _ _ Ho) as (j' & Hle & Hj').
      apply String.eqb_neq. apply (Hothers j' o); [lia|assumption].
    + intros j o Hj. cbn [Nat.add].
      destruct (Nat.eqb_spec j k) as [->|Hne].
      * rewrite Hk in Hj. injection Hj as <-. rewrite Hh. reflexivity.
      * apply String.eqb_neq. now apply (Hothers j o).
  - intros j o Hj Ho. apply String.eqb_neq. apply (Hothers j o); [lia|assumption].
Qed.

Lemma far_canvas_pair :
  applyGravitationalForce (newCanvasObject 0 0 "blackhole" 5)
                          (newCanvasObject 100 0 "small-planet" 1)
  = Pushed (cos (atan2 (0 - 0) (100 - 0)) * (5 * 1 / (100 * 100)) * 0.0001)
           (sin (atan2 (0 - 0) (100 - 0)) * (5 * 1 / (100 * 100)) * 0.0001).
Proof.
  unfold applyGravitationalForce. cbn. sep_value 100.
  now rewrite Rltb_false by lra.
Qed.

Lemma applyGravitationalForce_pushes_away_witness :
  canvas_radius (newCanvasObject 0 0 "blackhole" 5)
    + canvas_radius (newCanvasObject 100 0 "small-planet" 1)
    <= sqrt ((100 - 0) * (100 - 0) + (0 - 0) * (0 - 0)) /\
  exists k, 0 < k /\
    cos (atan2 (0 - 0) (100 - 0)) * (5 * 1 / (100 * 100)) * 0.0001
      = k * (100 - 0) /\
    sin (atan2 (0 - 0) (100 - 0)) * (5 * 1 / (100 * 100)) * 0.0001
      = k * (0 - 0) /\
    k * sqrt ((100 - 0) * (100 - 0) + (0 - 0) * (0 - 0))
      = 0.0001 * 5 * 1
        / (sqrt ((100 - 0) * (100 - 0) + (0 - 0) * (0 - 0))
           * sqrt ((100 - 0) * (100 - 0) + (0 - 0) * (0 - 0))).
Proof.
  apply (applyGravitationalForce_pushes_away
           (newCanvasObject 0 0 "blackhole" 5)
           (newCanvasObject 100 0 "small-planet" 1) _ _ far_canvas_pair).
  - cbn. lra.
  - cbn. lra.
  - left. cbn. lra.
Defined.

Lemma single_black_hole_absorbs_witness :
  animate_interactions [newCanvasObject 0 0 "blackhole" 5;
                        newCanvasObject 30 0 "small-planet" 1] =
  filter (fun o => String.eqb (canvas_type o) "blackhole"
                   || negb (applyGravitationalForce_removed
                              (newCanvasObject 0 0 "blackhole" 5) o))
         [newCanvasObject 0 0 "blackhole" 5;
          newCanvasObject 30 0 "small-planet" 1].
Proof.
  apply (single_black_hole_absorbs _ 0 (newCanvasObject 0 0 "blackhole" 5)).
  - reflexivity.
  - reflexivity.
  - intros [|[|j]] o Hj Ho; [contradiction| |destruct j; discriminate].
    injection Ho as <-. discriminate.
Defined.
